(** * jest-environment-puppeteer: the lifecycle coordinator of [env.ts]

    A shallow embedding of
    [packages/jest-environment-puppeteer/src/env.ts] and the properties of
    its browser / context / page lifecycle.

    The module keeps three optional handles on the test file's [global]
    object and sequences calls to the Puppeteer client.  Embedded here are
    its module-level functions ([handlePageError], the three accessors, the
    three acquisitions, the three releases, [initAll], [closeAll]) and the
    [resetPage] and [resetBrowser] helpers that [setup] publishes;
    [teardown] is [closeAll].  The [debug] helper, the timeout symbol and
    the directory creation of [setup] do not touch the handles and are left
    out.

    The client is not part of the module: it is modelled by a [World] that
    hands out fresh handles, records every effectful call in a trace, keeps
    the ["pageerror"] listener table of every page object, and carries a
    script saying which of the awaited calls reject.  A function body that
    throws or whose awaited call rejects stops there; the assignments made
    before stay. *)

From Stdlib Require Import String List Lia.
From stdpp Require Import base option list gmap.
Import ListNotations.

(** ** Data *)

(** Modelled from the spec: the configuration type of [./config] is not
    among the sources.  The spec lists its three settings ("context mode,
    error-exit behavior, close behavior"); [env.ts] reads them as
    [browserContext], [exitOnPageError] and [runBeforeUnloadOnClose].  Each
    one may be absent ([undefined]). *)
Record PuppeteerConfig := {
  browserContext : option string;
  exitOnPageError : option bool;
  runBeforeUnloadOnClose : option bool
}.

(** Handles of the automation client.  A handle is an object reference:
    two handles are the same object exactly when they are equal here. *)
Record Browser := { browser_id : nat }.

Inductive BrowserContext :=
| DefaultContext (owner : Browser)
| IncognitoContext (owner : Browser) (context_id : nat).

Record Page := { page_id : nat; page_context : BrowserContext }.

(** A JavaScript [Error] object. *)
Record Error := { message : string }.

(** Functions that can be registered on a page's ["pageerror"] event:
    this module's [handlePageError], or some function of the test code. *)
Inductive Listener :=
| HandlePageError
| TestListener (n : nat).

(** Effectful calls that leave the module. *)
Inductive Call :=
| ConnectBrowserFromWorker (config : PuppeteerConfig)
| BrowserDisconnect (b : Browser)
| CreateIncognitoBrowserContext (b : Browser)
| ContextNewPage (c : BrowserContext)
| ContextClose (c : BrowserContext)
| PageOn (p : Page) (l : Listener)
| PageOff (p : Page) (l : Listener)
| PageClose (p : Page) (runBeforeUnload : bool)
| ProcessEmit (event : string) (error : Error)
| TestListenerCalled (n : nat) (error : Error).

(** What a function body can throw: an [Error] built by the module, or
    the rejection of an awaited client call. *)
Inductive Exception :=
| Thrown (e : Error)
| Rejected (c : Call).

#[global] Instance Browser_eq_dec : EqDecision Browser.
Proof. solve_decision. Defined.
#[global] Instance BrowserContext_eq_dec : EqDecision BrowserContext.
Proof. solve_decision. Defined.
#[global] Instance Page_eq_dec : EqDecision Page.
Proof. solve_decision. Defined.
#[global] Instance Listener_eq_dec : EqDecision Listener.
Proof. solve_decision. Defined.

(** The [JestPuppeteerGlobal] object, as far as [env.ts] uses it. *)
Record JestPuppeteerGlobal := {
  browser : option Browser;
  context : option BrowserContext;
  page : option Page;
  puppeteerConfig : PuppeteerConfig
}.

(** The client side. *)
Record World := {
  fresh : nat;                          (* next handle never given out *)
  faults : list bool;                   (* awaited calls to come: [true] rejects *)
  listeners : gmap nat (list Listener); (* "pageerror" listeners, by page *)
  trace : list Call                     (* calls issued, oldest first *)
}.

Record Machine := { global : JestPuppeteerGlobal; world : World }.

(** ** Computations: state that survives a throw *)

Inductive Completion (A : Type) :=
| Normal (a : A)
| Abrupt (e : Exception).
Arguments Normal {A} a.
Arguments Abrupt {A} e.

Definition Prog (A : Type) : Type := Machine -> Completion A * Machine.

Definition ret {A} (a : A) : Prog A := fun m => (Normal a, m).

Definition throw {A} (e : Error) : Prog A := fun m => (Abrupt (Thrown e), m).

Definition bind {A B} (c : Prog A) (k : A -> Prog B) : Prog B :=
  fun m =>
    match c m with
    | (Normal a, m') => k a m'
    | (Abrupt e, m') => (Abrupt e, m')
    end.

Declare Scope prog_scope.
Delimit Scope prog_scope with prog.
Notation "x <- c ;; k" := (bind c (fun x => k))
  (at level 100, c at next level, right associativity) : prog_scope.
Notation "c ;; k" := (bind c (fun _ => k))
  (at level 100, right associativity) : prog_scope.
Local Open Scope prog_scope.

Definition getGlobal : Prog JestPuppeteerGlobal := fun m => (Normal (global m), m).

Definition setGlobal (g : JestPuppeteerGlobal) : Prog unit :=
  fun m => (Normal tt, {| global := g; world := world m |}).

Definition getWorld : Prog World := fun m => (Normal (world m), m).

(** ** The automation client *)

(** A synchronous call: recorded, never throws. *)
Definition record (c : Call) : Prog unit :=
  fun m =>
    let w := world m in
    (Normal tt,
     {| global := global m;
        world := {| fresh := fresh w; faults := faults w;
                    listeners := listeners w; trace := trace w ++ [c] |} |}).

(** Does the next awaited call reject?  An exhausted script means that it
    resolves. *)
Definition rejectsFirst (script : list bool) : bool :=
  match script with
  | true :: _ => true
  | _ => false
  end.

Definition nextRejects (w : World) : bool := rejectsFirst (faults w).

(** An awaited call: recorded, then settled by the next entry of the
    fault script. *)
Definition await (c : Call) : Prog unit :=
  fun m =>
    let w := world m in
    let m' := {| global := global m;
                 world := {| fresh := fresh w; faults := tail (faults w);
                             listeners := listeners w;
                             trace := trace w ++ [c] |} |} in
    if nextRejects w then (Abrupt (Rejected c), m') else (Normal tt, m').

(** A new object of the client: a handle that was never given out. *)
Definition newHandle : Prog nat :=
  fun m =>
    let w := world m in
    (Normal (fresh w),
     {| global := global m;
        world := {| fresh := S (fresh w); faults := faults w;
                    listeners := listeners w; trace := trace w |} |}).

Definition listenersOf (w : World) (p : Page) : list Listener :=
  default [] (listeners w !! page_id p).

Definition setListeners (p : Page) (ls : list Listener) : Prog unit :=
  fun m =>
    let w := world m in
    (Normal tt,
     {| global := global m;
        world := {| fresh := fresh w; faults := faults w;
                    listeners := <[page_id p := ls]> (listeners w);
                    trace := trace w |} |}).

(** Modelled from the spec: [connectBrowserFromWorker] of [./browsers] is
    not among the sources.  The spec says that it "acquires a browser
    handle" from the automation client ("connect"). *)
Definition connectBrowserFromWorker (config : PuppeteerConfig) : Prog Browser :=
  await (ConnectBrowserFromWorker config) ;;
  n <- newHandle ;;
  ret {| browser_id := n |}.

Definition browser_disconnect (b : Browser) : Prog unit :=
  await (BrowserDisconnect b).

(** [browser.defaultBrowserContext()]: the one default context of [b]. *)
Definition defaultBrowserContext (b : Browser) : BrowserContext :=
  DefaultContext b.

Definition createIncognitoBrowserContext (b : Browser) : Prog BrowserContext :=
  await (CreateIncognitoBrowserContext b) ;;
  n <- newHandle ;;
  ret (IncognitoContext b n).

Definition isIncognito (c : BrowserContext) : bool :=
  match c with
  | DefaultContext _ => false
  | IncognitoContext _ _ => true
  end.

Definition context_close (c : BrowserContext) : Prog unit :=
  await (ContextClose c).

(** [context.newPage()]: a new page object, without listeners. *)
Definition newPage (c : BrowserContext) : Prog Page :=
  await (ContextNewPage c) ;;
  n <- newHandle ;;
  let p := {| page_id := n; page_context := c |} in
  setListeners p [] ;;
  ret p.

(** [emitter.off] takes out one registration of the listener. *)
Fixpoint remove_first (l : Listener) (ls : list Listener) : list Listener :=
  match ls with
  | [] => []
  | x :: r => if decide (x = l) then r else x :: remove_first l r
  end.

Definition page_on (p : Page) (l : Listener) : Prog unit :=
  record (PageOn p l) ;;
  w <- getWorld ;;
  setListeners p (listenersOf w p ++ [l]).

Definition page_off (p : Page) (l : Listener) : Prog unit :=
  record (PageOff p l) ;;
  w <- getWorld ;;
  setListeners p (remove_first l (listenersOf w p)).

Definition page_close (p : Page) (runBeforeUnload : bool) : Prog unit :=
  await (PageClose p runBeforeUnload).

Definition process_emit (event : string) (error : Error) : Prog unit :=
  record (ProcessEmit event error).

(** JavaScript truthiness of an optional boolean setting. *)
Definition truthy (o : option bool) : bool :=
  match o with
  | Some true => true
  | _ => false
  end.

(** ** [env.ts] *)

Definition handlePageError (error : Error) : Prog unit :=
  process_emit "uncaughtException" error.

Definition getBrowser : Prog Browser :=
  g <- getGlobal ;;
  match browser g with
  | None => throw {| message := "Cannot access browser before launching browser." |}
  | Some b => ret b
  end.

Definition getContext : Prog BrowserContext :=
  g <- getGlobal ;;
  match context g with
  | None => throw {| message := "Cannot access context before launching context." |}
  | Some c => ret c
  end.

(** Assignments [global.browser = ...], [global.context = ...] and
    [global.page = ...]. *)
Definition withBrowser (b : option Browser) (g : JestPuppeteerGlobal) :=
  {| browser := b; context := context g; page := page g;
     puppeteerConfig := puppeteerConfig g |}.

Definition withContext (c : option BrowserContext) (g : JestPuppeteerGlobal) :=
  {| browser := browser g; context := c; page := page g;
     puppeteerConfig := puppeteerConfig g |}.

Definition withPage (p : option Page) (g : JestPuppeteerGlobal) :=
  {| browser := browser g; context := context g; page := p;
     puppeteerConfig := puppeteerConfig g |}.

Definition setBrowser (b : option Browser) : Prog unit :=
  g <- getGlobal ;;
  setGlobal (withBrowser b g).

Definition setContext (c : option BrowserContext) : Prog unit :=
  g <- getGlobal ;;
  setGlobal (withContext c g).

Definition setPage (p : option Page) : Prog unit :=
  g <- getGlobal ;;
  setGlobal (withPage p g).

Definition connectBrowser : Prog unit :=
  g <- getGlobal ;;
  match browser g with
  | Some _ =>
      throw {| message := "Cannot connect browser before closing previous browser." |}
  | None =>
      b <- connectBrowserFromWorker (puppeteerConfig g) ;;
      setBrowser (Some b)
  end.

Definition disconnectBrowser : Prog unit :=
  g <- getGlobal ;;
  match browser g with
  | None => ret tt
  | Some b =>
      browser_disconnect b ;;
      setBrowser None
  end.

Definition getPage : Prog Page :=
  g <- getGlobal ;;
  match page g with
  | None => throw {| message := "Cannot access page before launching browser." |}
  | Some p => ret p
  end.

Definition openPage : Prog unit :=
  g <- getGlobal ;;
  match page g with
  | Some _ => throw {| message := "Cannot open page before closing previous page." |}
  | None =>
      c <- getContext ;;
      p <- newPage c ;;
      (if truthy (exitOnPageError (puppeteerConfig g))
       then page_on p HandlePageError
       else ret tt) ;;
      setPage (Some p)
  end.

Definition closePage : Prog unit :=
  g <- getGlobal ;;
  match page g with
  | None => ret tt
  | Some p =>
      (if truthy (exitOnPageError (puppeteerConfig g))
       then page_off p HandlePageError
       else ret tt) ;;
      page_close p (truthy (runBeforeUnloadOnClose (puppeteerConfig g))) ;;
      setPage None
  end.

Definition invalidBrowserContext (received : string) : Error :=
  {| message :=
       String.append
         "browserContext should be either 'incognito' or 'default'. Received '"
         (String.append received "'") |}.

Definition createContext : Prog unit :=
  g <- getGlobal ;;
  match context g with
  | Some _ =>
      throw {| message := "Cannot create context before closing previous context." |}
  | None =>
      let configBrowserContext :=
        default "default"%string (browserContext (puppeteerConfig g)) in
      b <- getBrowser ;;
      if String.eqb configBrowserContext "default" then
        setContext (Some (defaultBrowserContext b))
      else if String.eqb configBrowserContext "incognito" then
        c <- createIncognitoBrowserContext b ;;
        setContext (Some c)
      else
        throw (invalidBrowserContext configBrowserContext)
  end.

Definition closeContext : Prog unit :=
  g <- getGlobal ;;
  match context g with
  | None => ret tt
  | Some c =>
      (if isIncognito c then context_close c else ret tt) ;;
      setContext None
  end.

Definition initAll : Prog unit :=
  connectBrowser ;;
  createContext ;;
  openPage.

Definition closeAll : Prog unit :=
  closePage ;;
  closeContext ;;
  disconnectBrowser.

(** The two helpers that [setup] publishes as [global.jestPuppeteer]. *)
Definition resetPage : Prog unit :=
  closePage ;;
  openPage.

Definition resetBrowser : Prog unit :=
  closeAll ;;
  initAll.

(** ** Page errors *)

Definition runListener (error : Error) (l : Listener) : Prog unit :=
  match l with
  | HandlePageError => handlePageError error
  | TestListener n => record (TestListenerCalled n error)
  end.

Fixpoint runListeners (error : Error) (ls : list Listener) : Prog unit :=
  match ls with
  | [] => ret tt
  | l :: r => runListener error l ;; runListeners error r
  end.

(** The page object emits ["pageerror"]: its listeners run in order. *)
Definition emitPageError (p : Page) (error : Error) : Prog unit :=
  w <- getWorld ;;
  runListeners error (listenersOf w p).

(** ** Runs of the coordinator *)

Inductive Op :=
| ConnectBrowser | CreateContext | OpenPage
| ClosePage | CloseContext | DisconnectBrowser
| InitAll | CloseAll | ResetPage | ResetBrowser.

Definition perform (o : Op) : Prog unit :=
  match o with
  | ConnectBrowser => connectBrowser
  | CreateContext => createContext
  | OpenPage => openPage
  | ClosePage => closePage
  | CloseContext => closeContext
  | DisconnectBrowser => disconnectBrowser
  | InitAll => initAll
  | CloseAll => closeAll
  | ResetPage => resetPage
  | ResetBrowser => resetBrowser
  end.

(** Each operation is a call of its own: one that throws does not keep the
    next one from being called, on the state the throw left behind. *)
Fixpoint run (ops : list Op) (m : Machine) : Machine :=
  match ops with
  | [] => m
  | o :: rest => run rest (snd (perform o m))
  end.

(** The state [setup] starts from: the configuration is in place, no
    handle is held. *)
Definition initialGlobal (config : PuppeteerConfig) : JestPuppeteerGlobal :=
  {| browser := None; context := None; page := None;
     puppeteerConfig := config |}.

Definition quietWorld : World :=
  {| fresh := 0; faults := []; listeners := ∅; trace := [] |}.

Definition start (config : PuppeteerConfig) (w : World) : Machine :=
  {| global := initialGlobal config; world := w |}.

Definition defaultConfig : PuppeteerConfig :=
  {| browserContext := None; exitOnPageError := None;
     runBeforeUnloadOnClose := None |}.

(** Sample configurations and states for concrete runs. *)
Definition incognitoConfig : PuppeteerConfig :=
  {| browserContext := Some "incognito"%string;
     exitOnPageError := Some true;
     runBeforeUnloadOnClose := None |}.

Definition bogusConfig : PuppeteerConfig :=
  {| browserContext := Some "private"%string;
     exitOnPageError := None;
     runBeforeUnloadOnClose := None |}.

Definition idle : Machine := start defaultConfig quietWorld.

Definition pageOpen : Machine := run [InitAll] idle.

Definition incognitoOpen : Machine := run [InitAll] (start incognitoConfig quietWorld).

(** A client whose first call rejects: the first setup fails at once, the
    second one goes through. *)
Definition retried : Machine :=
  run [InitAll; InitAll]
    (start incognitoConfig
       {| fresh := 0; faults := [true]; listeners := ∅; trace := [] |}).

(** ** Properties of states and runs *)

(** A page needs a context, a context needs a browser. *)
Definition lifecycle_ok (g : JestPuppeteerGlobal) : Prop :=
  (is_Some (page g) -> is_Some (context g)) /\
  (is_Some (context g) -> is_Some (browser g)).

Definition held {A} (o : option A) : bool :=
  match o with
  | Some _ => true
  | None => false
  end.

(** Teardown in the reverse of creation order: a bare [closeContext] only
    while no page is held, a bare [disconnectBrowser] only while no context
    is held.  [closeAll] does this by construction. *)
Definition inReverseOrder (o : Op) (g : JestPuppeteerGlobal) : bool :=
  match o with
  | CloseContext => negb (held (page g))
  | DisconnectBrowser => negb (held (context g))
  | _ => true
  end.

Fixpoint reverseOrdered (ops : list Op) (m : Machine) : bool :=
  match ops with
  | [] => true
  | o :: rest =>
      inReverseOrder o (global m) && reverseOrdered rest (snd (perform o m))
  end.

(** The operations other than a bare [closeContext] or
    [disconnectBrowser]: sequences of them are in reverse order whatever
    happens. *)
Definition composed (o : Op) : bool :=
  match o with
  | CloseContext | DisconnectBrowser => false
  | _ => true
  end.

(** No awaited call rejects from here on. *)
Definition quiet (script : list bool) : Prop :=
  Forall (fun rejects => rejects = false) script.

Definition cooperative (w : World) : Prop := quiet (faults w).

(** The modes [createContext] accepts. *)
Definition validMode (config : PuppeteerConfig) : Prop :=
  browserContext config = None \/
  browserContext config = Some "default"%string \/
  browserContext config = Some "incognito"%string.

(** Every handle on [global] was given out by the client before. *)
Definition contextIssued (n : nat) (c : BrowserContext) : Prop :=
  match c with
  | DefaultContext b => browser_id b < n
  | IncognitoContext b k => browser_id b < n /\ k < n
  end.

Definition whenHeld {A} (P : A -> Prop) (o : option A) : Prop :=
  match o with
  | Some a => P a
  | None => True
  end.

Definition issued (m : Machine) : Prop :=
  let n := fresh (world m) in
  whenHeld (fun b => browser_id b < n) (browser (global m)) /\
  whenHeld (contextIssued n) (context (global m)) /\
  whenHeld (fun p => page_id p < n) (page (global m)).

(** The state of a run in which the client cooperates: the global object
    is [g], the next handle is [n], and no call to come rejects. *)
Definition calm (n : nat) (g : JestPuppeteerGlobal) (m : Machine) : Prop :=
  global m = g /\ fresh (world m) = n /\ cooperative (world m).

(** The configuration is [config] and the client cooperates. *)
Definition settled (config : PuppeteerConfig) (m : Machine) : Prop :=
  puppeteerConfig (global m) = config /\ cooperative (world m).

(** What holds of every state the coordinator reaches: the handles it
    holds were given out by the client, and a context is only ever held
    under a mode [createContext] accepts. *)
Definition sound (m : Machine) : Prop :=
  issued m /\
  (is_Some (context (global m)) -> validMode (puppeteerConfig (global m))).

(** ** A Hoare logic for [Prog] *)

(** [hoare P c Q E]: from a state in [P], [c] ends in [Q] when it
    completes normally and in [E] when it throws. *)
Definition hoare {A} (P : Machine -> Prop) (c : Prog A)
    (Q : A -> Machine -> Prop) (E : Exception -> Machine -> Prop) : Prop :=
  forall m, P m ->
    match c m with
    | (Normal a, m') => Q a m'
    | (Abrupt e, m') => E e m'
    end.

(** [c] keeps [I], however it ends. *)
Definition stable {A} (I : Machine -> Prop) (c : Prog A) : Prop :=
  hoare I c (fun _ => I) (fun _ => I).

Definition ok (m : Machine) : Prop := lifecycle_ok (global m).

(** Unfolding the monad on a concrete or symbolic run. *)
Ltac unfold_prog :=
  unfold initAll, closeAll, resetPage, resetBrowser,
    connectBrowser, disconnectBrowser, createContext, closeContext,
    openPage, closePage, getBrowser, getContext, getPage,
    setBrowser, setContext, setPage, withBrowser, withContext, withPage,
    connectBrowserFromWorker, browser_disconnect,
    createIncognitoBrowserContext, context_close, newPage,
    page_on, page_off, page_close, process_emit, handlePageError,
    setListeners, newHandle, await, record,
    getGlobal, setGlobal, getWorld, bind, ret, throw in *.

(** Case analysis on the settling of the awaited call in the goal. *)
Ltac case_rejects :=
  match goal with
  | |- context [nextRejects ?w] => destruct (nextRejects w) eqn:?; simpl
  end.

Ltac solve_ok :=
  unfold ok, lifecycle_ok, is_Some in *; simpl in *;
  repeat split; intros; destruct_and?; eauto;
  try match goal with
      | H : ex _ |- _ => destruct H; congruence
      | H : ?P -> ex _, H' : ?P |- _ => exact (H H')
      end.


(** ** Further properties of states *)

Definition contextOwner (c : BrowserContext) : Browser :=
  match c with
  | DefaultContext b => b
  | IncognitoContext b _ => b
  end.

(** The held page was opened on the held context, and the held context
    belongs to the held browser. *)
Definition nested (g : JestPuppeteerGlobal) : Prop :=
  whenHeld (fun c => browser g = Some (contextOwner c)) (context g) /\
  whenHeld (fun p => context g = Some (page_context p)) (page g).

(** Does the configuration ask for an incognito context? *)
Definition wantsIncognito (config : PuppeteerConfig) : bool :=
  match browserContext config with
  | Some mode => String.eqb mode "incognito"
  | None => false
  end.

(** The held context is of the configured kind. *)
Definition kindAsConfigured (m : Machine) : Prop :=
  whenHeld (fun c => isIncognito c = wantsIncognito (puppeteerConfig (global m)))
    (context (global m)).

(** The held page carries [handlePageError] at most once, and only under
    a truthy [exitOnPageError]; it carries nothing else. *)
Definition listenerOnce (m : Machine) : Prop :=
  whenHeld
    (fun p =>
       listenersOf (world m) p = [] \/
       (listenersOf (world m) p = [HandlePageError] /\
        truthy (exitOnPageError (puppeteerConfig (global m))) = true))
    (page (global m)).

Definition configIs (config : PuppeteerConfig) (m : Machine) : Prop :=
  puppeteerConfig (global m) = config.

(** What every operation keeps, in whatever order and with whatever
    outcome it is called. *)
Definition steady (config : PuppeteerConfig) (m : Machine) : Prop :=
  configIs config m /\ kindAsConfigured m /\ listenerOnce m.

(** [c] leaves [global.puppeteerConfig] alone, however it ends. *)
Definition keepsConfig {A} (c : Prog A) : Prop :=
  forall m, puppeteerConfig (global (snd (c m))) = puppeteerConfig (global m).

Definition nestedIn (m : Machine) : Prop := nested (global m).

(** A cooperating run with its history: the global object is [g], the
    next handle is [n], the calls issued so far are [t]. *)
Definition traced (n : nat) (g : JestPuppeteerGlobal) (t : list Call)
    (m : Machine) : Prop :=
  global m = g /\ fresh (world m) = n /\ trace (world m) = t /\
  cooperative (world m).

(** Case analysis along the branches of an unfolded operation. *)
Ltac step_cases :=
  repeat first
    [ progress simpl
    | match goal with
      | |- context [match ?x with Some _ => _ | None => _ end] =>
          is_var x; destruct x
      | |- context [if nextRejects ?w then _ else _] =>
          destruct (nextRejects w) eqn:?
      | |- context [if truthy ?o then _ else _] =>
          destruct (truthy o) eqn:?
      | |- context [if isIncognito ?c then _ else _] =>
          destruct (isIncognito c) eqn:?
      | |- context [if String.eqb ?a ?b then _ else _] =>
          destruct (String.eqb a b) eqn:?
      end ].

Ltac solve_nested :=
  unfold nestedIn, nested, whenHeld in *; simpl in *;
  repeat match goal with
         | o : option _ |- _ => destruct o
         end;
  simpl in *; intuition congruence.

(** ** The environment class

    [PuppeteerEnvironment] works on the same [global] object.  Next to the
    coordinator's fields the object carries the test timeout, stored under
    [Symbol.for("TEST_TIMEOUT_SYMBOL")], and the [jestPuppeteer] helpers.
    The class also calls out to the configuration loader, the file system,
    the held page's [evaluate] and the standard-input blocker; these calls
    have a trace and a fault script of their own. *)

Inductive HostCall :=
| ReadConfig
| Mkdir (path : list string) (recursive : bool)
| PageEvaluate (p : Page)
| BlockStdin.

Inductive Failure :=
| OfCoordinator (e : Exception)
| HostRejected (c : HostCall).

Inductive Outcome (A : Type) :=
| Done (a : A)
| Failed (f : Failure).
Arguments Done {A} a.
Arguments Failed {A} f.

Record Environment := {
  machine : Machine;              (* handles, configuration and client *)
  testTimeout : option Z;         (* global[testTimeoutSymbol] *)
  jestPuppeteer : bool;           (* global.jestPuppeteer is in place *)
  configFile : PuppeteerConfig;   (* what readConfig resolves to *)
  cwd : string;                   (* process.cwd() *)
  hostFaults : list bool;         (* awaited host calls to come *)
  initAllSettlesFirst : bool;     (* the race inside Promise.all *)
  hostTrace : list HostCall       (* host calls issued, oldest first *)
}.

Definition EnvProg (A : Type) : Type := Environment -> Outcome A * Environment.

Definition eret {A} (a : A) : EnvProg A := fun s => (Done a, s).

Definition ebind {A B} (c : EnvProg A) (k : A -> EnvProg B) : EnvProg B :=
  fun s =>
    match c s with
    | (Done a, s') => k a s'
    | (Failed f, s') => (Failed f, s')
    end.

Declare Scope env_scope.
Delimit Scope env_scope with env.
Notation "x <- c ;; k" := (ebind c (fun x => k))
  (at level 100, c at next level, right associativity) : env_scope.
Notation "c ;; k" := (ebind c (fun _ => k))
  (at level 100, right associativity) : env_scope.

Definition withMachine (m : Machine) (s : Environment) : Environment :=
  {| machine := m; testTimeout := testTimeout s;
     jestPuppeteer := jestPuppeteer s; configFile := configFile s;
     cwd := cwd s; hostFaults := hostFaults s;
     initAllSettlesFirst := initAllSettlesFirst s;
     hostTrace := hostTrace s |}.

(** A function of the coordinator, run on the environment's [global]. *)
Definition lift {A} (c : Prog A) : EnvProg A :=
  fun s =>
    match c (machine s) with
    | (Normal a, m') => (Done a, withMachine m' s)
    | (Abrupt e, m') => (Failed (OfCoordinator e), withMachine m' s)
    end.

Definition getEnv : EnvProg Environment := fun s => (Done s, s).

(** An awaited host call: recorded, then settled by the host's script. *)
Definition hostAwait (c : HostCall) : EnvProg unit :=
  fun s =>
    let s' := {| machine := machine s; testTimeout := testTimeout s;
                 jestPuppeteer := jestPuppeteer s; configFile := configFile s;
                 cwd := cwd s; hostFaults := tail (hostFaults s);
                 initAllSettlesFirst := initAllSettlesFirst s;
                 hostTrace := hostTrace s ++ [c] |} in
    if rejectsFirst (hostFaults s) then (Failed (HostRejected c), s')
    else (Done tt, s').

(** Modelled from the spec: [readConfig] of [./config] is not among the
    sources; the spec calls it "a configuration loader". *)
Definition readConfig : EnvProg PuppeteerConfig :=
  (hostAwait ReadConfig ;;
   s <- getEnv ;;
   eret (configFile s))%env.

Definition mkdir (path : list string) (recursive : bool) : EnvProg unit :=
  hostAwait (Mkdir path recursive).

(** [page.evaluate(() => { debugger; })]. *)
Definition page_evaluate (p : Page) : EnvProg unit :=
  hostAwait (PageEvaluate p).

(** Modelled from the spec: [blockStdin] of [./stdin] is not among the
    sources; the spec says that it "blocks on standard input until the
    user resumes". *)
Definition blockStdin : EnvProg unit :=
  hostAwait BlockStdin.

(** [Promise.all([a, b])]: both computations are started whatever the
    other does; the result is normal when both are, and otherwise the
    failure that came first ([initAllSettlesFirst] decides between two).
    Neither touches what the other reads, so the state in which both have
    settled is the one of running them one after the other. *)
Definition promiseAll (a b : EnvProg unit) : EnvProg unit :=
  fun s =>
    let (ra, s1) := a s in
    let (rb, s2) := b s1 in
    (match ra, rb with
     | Done _, Done _ => Done tt
     | Failed f, Done _ => Failed f
     | Done _, Failed f => Failed f
     | Failed fa, Failed fb =>
         if initAllSettlesFirst s then Failed fa else Failed fb
     end, s2).

Definition withConfig (config : PuppeteerConfig) (g : JestPuppeteerGlobal) :=
  {| browser := browser g; context := context g; page := page g;
     puppeteerConfig := config |}.

Definition setConfig (config : PuppeteerConfig) : Prog unit :=
  fun m => (Normal tt, {| global := withConfig config (global m);
                          world := world m |}).

Definition publishHelpers : EnvProg unit :=
  fun s =>
    (Done tt,
     {| machine := machine s; testTimeout := testTimeout s;
        jestPuppeteer := true; configFile := configFile s;
        cwd := cwd s; hostFaults := hostFaults s;
        initAllSettlesFirst := initAllSettlesFirst s;
        hostTrace := hostTrace s |}).

Definition setTimeout (timeout : Z) : EnvProg unit :=
  fun s =>
    (Done tt,
     {| machine := machine s; testTimeout := Some timeout;
        jestPuppeteer := jestPuppeteer s; configFile := configFile s;
        cwd := cwd s; hostFaults := hostFaults s;
        initAllSettlesFirst := initAllSettlesFirst s;
        hostTrace := hostTrace s |}).

(** [global.jestPuppeteer.debug]. *)
Definition debug : EnvProg unit :=
  (setTimeout 345600000 ;;
   p <- lift getPage ;;
   page_evaluate p ;;
   blockStdin)%env.

Definition setup : EnvProg unit :=
  (config <- readConfig ;;
   lift (setConfig config) ;;
   publishHelpers ;;
   s <- getEnv ;;
   promiseAll (lift initAll) (mkdir [cwd s; "screenshots"%string] true))%env.

Definition teardown : EnvProg unit := lift closeAll.

Definition hostQuiet (s : Environment) : Prop := quiet (hostFaults s).

(** A new environment: nothing held, nothing published, no timeout. *)
Definition newEnvironment (config : PuppeteerConfig) (dir : string)
    (w : World) : Environment :=
  {| machine := start defaultConfig w; testTimeout := None;
     jestPuppeteer := false; configFile := config; cwd := dir;
     hostFaults := []; initAllSettlesFirst := true; hostTrace := [] |}.

Ltac unfold_env :=
  unfold setup, teardown, debug, setTimeout, publishHelpers, setConfig,
    withConfig, promiseAll, blockStdin, page_evaluate, mkdir, readConfig,
    hostAwait, getEnv, lift, withMachine, ebind, eret in *.
(** ** Rules of the logic *)

Section Rules.

Context {A : Type}.

Lemma hoare_consequence (P P' : Machine -> Prop) (c : Prog A)
    (Q Q' : A -> Machine -> Prop) (E E' : Exception -> Machine -> Prop) :
  hoare P' c Q' E' ->
  (forall m, P m -> P' m) ->
  (forall a m, Q' a m -> Q a m) ->
  (forall e m, E' e m -> E e m) ->
  hoare P c Q E.
Proof.
  intros H HP HQ HE m Hm. specialize (H m (HP m Hm)).
  destruct (c m) as [[a|e] m']; auto.
Qed.

Lemma hoare_ret (Q : A -> Machine -> Prop) (a : A) E :
  hoare (Q a) (ret a) Q E.
Proof. intros m Hm. exact Hm. Qed.

Lemma hoare_throw (P : Machine -> Prop) (er : Error)
    (Q : A -> Machine -> Prop) (E : Exception -> Machine -> Prop) :
  (forall m, P m -> E (Thrown er) m) -> hoare P (throw er) Q E.
Proof. intros H m Hm. apply H, Hm. Qed.

End Rules.

Lemma hoare_bind {A B} (P : Machine -> Prop) (c : Prog A)
    (Q : A -> Machine -> Prop) (k : A -> Prog B)
    (R : B -> Machine -> Prop) (E : Exception -> Machine -> Prop) :
  hoare P c Q E ->
  (forall a, hoare (Q a) (k a) R E) ->
  hoare P (bind c k) R E.
Proof.
  intros Hc Hk m Hm. unfold bind. specialize (Hc m Hm).
  destruct (c m) as [[a|e] m']; [apply (Hk a m' Hc) | exact Hc].
Qed.

Lemma stable_bind {A B} (I : Machine -> Prop) (c : Prog A) (k : A -> Prog B) :
  stable I c -> (forall a, stable I (k a)) -> stable I (bind c k).
Proof. intros Hc Hk. exact (hoare_bind _ _ _ _ _ _ Hc Hk). Qed.

(** ** Preconditions *)

(** C2. With the browser held [connectBrowser], with the context held
    [createContext] and with the page held [openPage] throw their
    "before closing previous" error at once: no client call is issued and
    nothing changes, so no second handle is acquired. *)
Theorem acquire_twice_fails (m : Machine) :
  (is_Some (browser (global m)) ->
   connectBrowser m =
     (Abrupt (Thrown {| message :=
        "Cannot connect browser before closing previous browser." |}), m)) /\
  (is_Some (context (global m)) ->
   createContext m =
     (Abrupt (Thrown {| message :=
        "Cannot create context before closing previous context." |}), m)) /\
  (is_Some (page (global m)) ->
   openPage m =
     (Abrupt (Thrown {| message :=
        "Cannot open page before closing previous page." |}), m)).
Proof.
  repeat split; intros [x Hx]; unfold_prog; simpl; rewrite Hx; reflexivity.
Qed.

(** C4. With no page held [closePage], with no context held
    [closeContext] and with no browser held [disconnectBrowser] return
    normally and leave the whole state as it was (the global object and
    the client alike), so repeating them changes nothing either. *)
Theorem release_unheld_is_noop (m : Machine) :
  (page (global m) = None -> closePage m = (Normal tt, m)) /\
  (context (global m) = None -> closeContext m = (Normal tt, m)) /\
  (browser (global m) = None -> disconnectBrowser m = (Normal tt, m)).
Proof.
  repeat split; intros Hx; unfold_prog; simpl; rewrite Hx; reflexivity.
Qed.

(** C5. With the resource not held, [getBrowser], [getContext] and
    [getPage] throw their "Cannot access ... before launching" error and
    return no value. *)
Theorem access_before_acquire_fails (m : Machine) :
  (browser (global m) = None ->
   getBrowser m =
     (Abrupt (Thrown {| message :=
        "Cannot access browser before launching browser." |}), m)) /\
  (context (global m) = None ->
   getContext m =
     (Abrupt (Thrown {| message :=
        "Cannot access context before launching context." |}), m)) /\
  (page (global m) = None ->
   getPage m =
     (Abrupt (Thrown {| message :=
        "Cannot access page before launching browser." |}), m)).
Proof.
  repeat split; intros Hx; unfold_prog; simpl; rewrite Hx; reflexivity.
Qed.

(** C10. A failing [connectBrowser], [createContext] or [openPage] leaves
    the global object as it was; and when the failure is an error thrown by
    the module itself (resource already held, prerequisite missing, mode
    not accepted) no client call had been issued either: the whole state is
    as before the call. *)
Theorem acquire_failure_is_atomic (c : Prog unit) (m m' : Machine)
    (e : Exception) :
  c = connectBrowser \/ c = createContext \/ c = openPage ->
  c m = (Abrupt e, m') ->
  global m' = global m /\ (forall er, e = Thrown er -> m' = m).
Proof.
  intros [-> | [-> | ->]]; unfold_prog; simpl.
  - destruct (browser (global m)); simpl.
    + intros [= <- <-]. split; [reflexivity | intros; reflexivity].
    + destruct (nextRejects (world m)); simpl; intros [= <- <-].
      split; [reflexivity | discriminate].
  - destruct (context (global m)); simpl.
    + intros [= <- <-]. split; [reflexivity | intros; reflexivity].
    + destruct (browser (global m)); simpl.
      * destruct (String.eqb _ "default"); simpl; [discriminate|].
        destruct (String.eqb _ "incognito"); simpl.
        -- destruct (nextRejects (world m)); simpl; intros [= <- <-].
           split; [reflexivity | discriminate].
        -- intros [= <- <-]. split; [reflexivity | intros; reflexivity].
      * intros [= <- <-]. split; [reflexivity | intros; reflexivity].
  - destruct (page (global m)); simpl.
    + intros [= <- <-]. split; [reflexivity | intros; reflexivity].
    + destruct (context (global m)); simpl.
      * destruct (nextRejects (world m)); simpl.
        -- intros [= <- <-]. split; [reflexivity | discriminate].
        -- destruct (truthy _); simpl; discriminate.
      * intros [= <- <-]. split; [reflexivity | intros; reflexivity].
Qed.

(** The module throws exactly on its three kinds of precondition. *)
Lemma createContext_without_browser (m : Machine) :
  context (global m) = None -> browser (global m) = None ->
  createContext m =
    (Abrupt (Thrown {| message :=
       "Cannot access browser before launching browser." |}), m).
Proof. intros Hc Hb. unfold_prog. simpl. rewrite Hc. simpl. rewrite Hb. reflexivity. Qed.

Lemma openPage_without_context (m : Machine) :
  page (global m) = None -> context (global m) = None ->
  openPage m =
    (Abrupt (Thrown {| message :=
       "Cannot access context before launching context." |}), m).
Proof. intros Hp Hc. unfold_prog. simpl. rewrite Hp. simpl. rewrite Hc. reflexivity. Qed.

(** C3. [createContext] with a browser held and no context held: mode
    ["default"] or no mode stores the browser's default context; mode
    ["incognito"] asks the client for an incognito context and, when that
    call resolves, stores the new one; any other mode throws an error whose
    message ends in the received value between quotes. *)
Theorem createContext_by_mode (m : Machine) (b : Browser) :
  browser (global m) = Some b ->
  context (global m) = None ->
  let g := global m in
  let w := world m in
  let mode := browserContext (puppeteerConfig g) in
  (mode = None \/ mode = Some "default"%string ->
   createContext m =
     (Normal tt,
      {| global := {| browser := Some b;
                      context := Some (defaultBrowserContext b);
                      page := page g;
                      puppeteerConfig := puppeteerConfig g |};
         world := w |})) /\
  (mode = Some "incognito"%string ->
   nextRejects w = false ->
   createContext m =
     (Normal tt,
      {| global := {| browser := Some b;
                      context := Some (IncognitoContext b (fresh w));
                      page := page g;
                      puppeteerConfig := puppeteerConfig g |};
         world := {| fresh := S (fresh w);
                     faults := tail (faults w);
                     listeners := listeners w;
                     trace := trace w ++ [CreateIncognitoBrowserContext b] |} |})) /\
  (forall received : string,
   mode = Some received ->
   received <> "default"%string -> received <> "incognito"%string ->
   createContext m =
     (Abrupt (Thrown {| message :=
        String.append
          "browserContext should be either 'incognito' or 'default'. Received '"
          (String.append received "'") |}), m)).
Proof.
  intros Hb Hc g w mode. subst g w mode.
  repeat split.
  - intros Hmode. unfold_prog. simpl. rewrite Hc. simpl. rewrite Hb. simpl.
    destruct Hmode as [-> | ->]; simpl; rewrite Hb; reflexivity.
  - intros Hmode Hres. unfold_prog. simpl. rewrite Hc. simpl. rewrite Hb. simpl.
    rewrite Hmode. simpl. rewrite Hres. simpl. rewrite Hb. reflexivity.
  - intros received Hmode Hd Hi. unfold_prog. simpl. rewrite Hc. simpl.
    rewrite Hb. simpl. rewrite Hmode. simpl.
    apply String.eqb_neq in Hd, Hi. rewrite Hd, Hi. reflexivity.
Qed.

(** C7. [closeContext] with a context held calls the client's
    [context.close()] exactly when the context is incognito; for the
    default context it issues no call.  The reference is cleared whenever
    [closeContext] completes, which it does unless that close call itself
    rejects. *)
Theorem closeContext_closes_only_incognito (m : Machine) (c : BrowserContext) :
  context (global m) = Some c ->
  let r := fst (closeContext m) in
  let m' := snd (closeContext m) in
  trace (world m') =
    trace (world m) ++ (if isIncognito c then [ContextClose c] else []) /\
  (isIncognito c = false \/ nextRejects (world m) = false ->
   r = Normal tt /\
   global m' = {| browser := browser (global m); context := None;
                  page := page (global m);
                  puppeteerConfig := puppeteerConfig (global m) |}) /\
  (r = Normal tt -> context (global m') = None).
Proof.
  intros Hc. unfold_prog. simpl. rewrite Hc.
  destruct c as [b | b k]; simpl.
  - rewrite app_nil_r. repeat split; auto.
  - destruct (nextRejects (world m)) eqn:Hf; simpl.
    + split; [reflexivity | split].
      * intros [Hi | Hr]; discriminate.
      * discriminate.
    + repeat split; reflexivity.
Qed.

(** C8. The ["pageerror"] listener follows [exitOnPageError].  When the
    setting is truthy, [openPage] registers [handlePageError] on the new
    page, so that every error the page emits reaches the process as an
    ["uncaughtException"] carrying that error, and [closePage] takes
    [handlePageError] off the page before it closes it.  When the setting
    is not truthy, [openPage] registers nothing, a page error reaches the
    process not at all, and [closePage] only closes the page. *)
Theorem pageerror_listener_iff_exitOnPageError (m : Machine) :
  let enabled := truthy (exitOnPageError (puppeteerConfig (global m))) in
  (forall c : BrowserContext,
     page (global m) = None ->
     context (global m) = Some c ->
     nextRejects (world m) = false ->
     let p := {| page_id := fresh (world m); page_context := c |} in
     let m1 := snd (openPage m) in
     fst (openPage m) = Normal tt /\
     page (global m1) = Some p /\
     trace (world m1) =
       trace (world m) ++ [ContextNewPage c] ++
       (if enabled then [PageOn p HandlePageError] else []) /\
     listenersOf (world m1) p = (if enabled then [HandlePageError] else []) /\
     (forall error : Error,
        trace (world (snd (emitPageError p error m1))) =
          trace (world m1) ++
          (if enabled then [ProcessEmit "uncaughtException" error] else [])) /\
     listenersOf (world (snd (closePage m1))) p = []) /\
  (forall p : Page,
     page (global m) = Some p ->
     let m1 := snd (closePage m) in
     trace (world m1) =
       trace (world m) ++
       (if enabled then [PageOff p HandlePageError] else []) ++
       [PageClose p (truthy (runBeforeUnloadOnClose (puppeteerConfig (global m))))] /\
     listenersOf (world m1) p =
       (if enabled
        then remove_first HandlePageError (listenersOf (world m) p)
        else listenersOf (world m) p)).
Proof.
  intros enabled. subst enabled. split.
  - intros c Hp Hc Hres p m1. subst p m1.
    unfold emitPageError. unfold_prog. unfold listenersOf. simpl.
    rewrite Hp. simpl. rewrite Hc. simpl. rewrite Hres. simpl.
    destruct (truthy (exitOnPageError (puppeteerConfig (global m)))) eqn:Hen;
      simpl; rewrite ?Hen; simpl; rewrite ?lookup_insert_eq; simpl.
    + repeat split.
      * now rewrite <- app_assoc.
      * case_rejects; now rewrite lookup_insert_eq.
    + repeat split.
      * now rewrite app_nil_r.
      * case_rejects; now rewrite lookup_insert_eq.
  - intros p Hp m1. subst m1. unfold_prog. unfold listenersOf. simpl.
    rewrite Hp. simpl.
    destruct (truthy (exitOnPageError (puppeteerConfig (global m)))); simpl.
    + case_rejects; rewrite lookup_insert_eq, <- app_assoc;
        split; reflexivity.
    + case_rejects; split; reflexivity.
Qed.

(** ** The lifecycle invariant *)

Lemma connectBrowser_ok : stable ok connectBrowser.
Proof.
  intros [[b c p cfg] w] Hok. unfold_prog. simpl in *.
  destruct b; simpl; [exact Hok|].
  case_rejects; [exact Hok|].
  destruct c, p; solve_ok.
Qed.

Lemma createContext_ok : stable ok createContext.
Proof.
  intros [[b c p cfg] w] Hok. unfold_prog. simpl in *.
  destruct c; simpl; [exact Hok|].
  destruct b; simpl; [|exact Hok].
  destruct (String.eqb _ "default"); simpl; [solve_ok|].
  destruct (String.eqb _ "incognito"); simpl; [|exact Hok].
  case_rejects; [exact Hok|solve_ok].
Qed.

Lemma openPage_ok : stable ok openPage.
Proof.
  intros [[b c p cfg] w] Hok. unfold_prog. simpl in *.
  destruct p; simpl; [exact Hok|].
  destruct c; simpl; [|exact Hok].
  case_rejects; [exact Hok|].
  destruct (truthy _); simpl; solve_ok.
Qed.

Lemma closePage_ok :
  hoare ok closePage
    (fun _ m => ok m /\ page (global m) = None) (fun _ => ok).
Proof.
  intros [[b c p cfg] w] Hok. unfold_prog. simpl in *.
  destruct p; simpl; [|split; [exact Hok|reflexivity]].
  destruct (truthy (exitOnPageError cfg)); simpl;
    case_rejects; solve_ok.
Qed.

Lemma closeContext_ok :
  hoare (fun m => ok m /\ page (global m) = None) closeContext
    (fun _ m => ok m /\ context (global m) = None) (fun _ => ok).
Proof.
  intros [[b c p cfg] w] [Hok Hp]. unfold_prog. simpl in *. subst p.
  destruct c as [c|]; simpl; [|split; [exact Hok|reflexivity]].
  destruct (isIncognito c); simpl; [case_rejects|]; solve_ok.
Qed.

Lemma disconnectBrowser_ok :
  hoare (fun m => ok m /\ context (global m) = None) disconnectBrowser
    (fun _ => ok) (fun _ => ok).
Proof.
  intros [[b c p cfg] w] [Hok Hc]. unfold_prog. simpl in *. subst c.
  destruct b; simpl; [|exact Hok].
  case_rejects; solve_ok.
Qed.

Lemma initAll_ok : stable ok initAll.
Proof.
  unfold initAll.
  apply stable_bind; [apply connectBrowser_ok | intros _].
  apply stable_bind; [apply createContext_ok | intros _].
  apply openPage_ok.
Qed.

Lemma closeAll_ok : stable ok closeAll.
Proof.
  unfold closeAll, stable.
  eapply hoare_bind; [apply closePage_ok | intros []].
  eapply hoare_bind; [apply closeContext_ok | intros []].
  apply disconnectBrowser_ok.
Qed.

Lemma resetPage_ok : stable ok resetPage.
Proof.
  unfold resetPage, stable.
  eapply hoare_bind; [apply closePage_ok | intros []].
  eapply hoare_consequence; [apply openPage_ok | | | ]; simpl; tauto.
Qed.

Lemma resetBrowser_ok : stable ok resetBrowser.
Proof.
  unfold resetBrowser.
  apply stable_bind; [apply closeAll_ok | intros _; apply initAll_ok].
Qed.

Lemma perform_ok (o : Op) :
  hoare (fun m => ok m /\ inReverseOrder o (global m) = true) (perform o)
    (fun _ => ok) (fun _ => ok).
Proof.
  destruct o; simpl.
  1-4, 7-10:
    eapply hoare_consequence;
    [ first [ apply connectBrowser_ok | apply createContext_ok
            | apply openPage_ok | apply closePage_ok | apply initAll_ok
            | apply closeAll_ok | apply resetPage_ok | apply resetBrowser_ok ]
    | | | ]; simpl; tauto.
  - eapply hoare_consequence; [apply closeContext_ok | | | ]; simpl; try tauto.
    intros m [Hok Hp]. split; [exact Hok|].
    destruct (page (global m)); [discriminate | reflexivity].
  - eapply hoare_consequence; [apply disconnectBrowser_ok | | | ]; simpl; try tauto.
    intros m [Hok Hp]. split; [exact Hok|].
    destruct (context (global m)); [discriminate | reflexivity].
Qed.

Lemma run_ok (ops : list Op) :
  forall m, ok m -> reverseOrdered ops m = true -> ok (run ops m).
Proof.
  induction ops as [|o rest IH]; intros m Hok Hord; simpl in *; [exact Hok|].
  apply andb_prop in Hord as [Ho Hrest].
  apply IH; [|exact Hrest].
  pose proof (perform_ok o m (conj Hok Ho)) as H.
  destruct (perform o m) as [[[]|e] m']; exact H.
Qed.

Lemma composed_reverseOrdered (ops : list Op) :
  forallb composed ops = true -> forall m, reverseOrdered ops m = true.
Proof.
  induction ops as [|o rest IH]; simpl; intros H m; [reflexivity|].
  apply andb_prop in H as [Ho Hrest].
  rewrite (IH Hrest). destruct o; simpl in *; congruence.
Qed.

(** C1, as the code has it.  From the initial state, with any
    configuration and any behaviour of the client, every sequence of
    coordinator operations that releases in the reverse of creation order
    (a bare [closeContext] only while no page is held, a bare
    [disconnectBrowser] only while no context is held) ends in a state
    where a held page implies a held context and a held context implies a
    held browser.  Failing operations are part of the sequence. *)
Theorem lifecycle_invariant (config : PuppeteerConfig) (w : World)
    (ops : list Op) :
  reverseOrdered ops (start config w) = true ->
  lifecycle_ok (global (run ops (start config w))).
Proof.
  intros Hord. apply run_ok; [|exact Hord].
  unfold ok, lifecycle_ok, start, initialGlobal; simpl.
  split; intros [x Hx]; discriminate.
Qed.

(** In particular every sequence of [initAll], [closeAll], [resetPage] and
    [resetBrowser], the four compositions the environment calls. *)
Lemma compositions_keep_lifecycle (config : PuppeteerConfig) (w : World)
    (ops : list Op) :
  forallb composed ops = true ->
  lifecycle_ok (global (run ops (start config w))).
Proof.
  intros H. apply run_ok.
  - unfold ok, lifecycle_ok, start, initialGlobal; simpl.
    split; intros [x Hx]; discriminate.
  - apply composed_reverseOrdered, H.
Qed.

(** The claim as written, for every sequence, fails: disconnecting the
    browser while the context is held leaves a context without a browser. *)
Lemma lifecycle_invariant_unordered_fails :
  ~ lifecycle_ok
      (global (run [ConnectBrowser; CreateContext; DisconnectBrowser]
                   (start defaultConfig quietWorld))).
Proof.
  unfold lifecycle_ok. vm_compute. intros [_ H].
  destruct H as [x Hx]; [eexists; reflexivity | discriminate].
Qed.

Lemma lifecycle_invariant_witness :
  reverseOrdered [InitAll; ResetPage; ClosePage; CloseContext; ResetBrowser; CloseAll]
    (start defaultConfig quietWorld) = true /\
  lifecycle_ok
    (global (run [InitAll; ResetPage; ClosePage; CloseContext; ResetBrowser; CloseAll]
                 (start defaultConfig quietWorld))).
Proof.
  split; [vm_compute; reflexivity|].
  apply (lifecycle_invariant defaultConfig quietWorld
           [InitAll; ResetPage; ClosePage; CloseContext; ResetBrowser; CloseAll]).
  vm_compute; reflexivity.
Defined.

(** ** Runs with a cooperating client *)

Lemma quiet_rejectsFirst (script : list bool) :
  quiet script -> rejectsFirst script = false.
Proof.
  intros H. destruct script as [|[] rest]; try reflexivity.
  inversion H; discriminate.
Qed.

Lemma quiet_tail (script : list bool) : quiet script -> quiet (tail script).
Proof.
  intros H. destruct script; simpl; [constructor | inversion H; assumption].
Qed.

Lemma cooperative_resolves (w : World) :
  cooperative w -> nextRejects w = false.
Proof. apply quiet_rejectsFirst. Qed.

Ltac solve_quiet :=
  unfold cooperative in *; simpl in *; repeat apply quiet_tail; assumption.

Ltac calm_start :=
  let g' := fresh "g'" in let w := fresh "w" in
  let Hg := fresh "Hg" in let Hn := fresh "Hn" in let Hco := fresh "Hco" in
  intros [g' w] (Hg & Hn & Hco); simpl in Hg, Hn, Hco; subst g';
  unfold_prog; unfold calm; simpl.

Ltac resolve_call :=
  unfold nextRejects; simpl;
  match goal with
  | |- context [rejectsFirst ?script] =>
      rewrite (quiet_rejectsFirst script) by solve_quiet; simpl
  end.

Ltac solve_calm :=
  repeat split; solve [auto | congruence | lia | solve_quiet].

Lemma closePage_calm n g :
  hoare (calm n g) closePage
    (fun _ => calm n (withPage None g)) (fun _ _ => False).
Proof.
  calm_start.
  destruct g as [b c [p|] cfg]; simpl; [|auto].
  destruct (truthy (exitOnPageError cfg)); simpl; resolve_call;
    solve_calm.
Qed.

Lemma closeContext_calm n g :
  hoare (calm n g) closeContext
    (fun _ => calm n (withContext None g)) (fun _ _ => False).
Proof.
  calm_start.
  destruct g as [b [c|] p cfg]; simpl; [|auto].
  destruct (isIncognito c); simpl; [resolve_call|];
    solve_calm.
Qed.

Lemma disconnectBrowser_calm n g :
  hoare (calm n g) disconnectBrowser
    (fun _ => calm n (withBrowser None g)) (fun _ _ => False).
Proof.
  calm_start.
  destruct g as [[b|] c p cfg]; simpl; [|auto].
  resolve_call; solve_calm.
Qed.

Lemma closeAll_calm n g :
  hoare (calm n g) closeAll
    (fun _ => calm n (initialGlobal (puppeteerConfig g))) (fun _ _ => False).
Proof.
  unfold closeAll.
  eapply hoare_bind; [apply closePage_calm | intros []].
  eapply hoare_bind; [apply closeContext_calm | intros []].
  apply disconnectBrowser_calm.
Qed.

Lemma connectBrowser_calm n g :
  browser g = None ->
  hoare (calm n g) connectBrowser
    (fun _ => calm (S n) (withBrowser (Some {| browser_id := n |}) g))
    (fun _ _ => False).
Proof.
  intros Hb. calm_start. rewrite Hb. simpl.
  resolve_call. subst n. solve_calm.
Qed.

Lemma createContext_calm n g b :
  context g = None ->
  browser g = Some b ->
  validMode (puppeteerConfig g) ->
  hoare (calm n g) createContext
    (fun _ m =>
       calm n (withContext (Some (DefaultContext b)) g) m \/
       calm (S n) (withContext (Some (IncognitoContext b n)) g) m)
    (fun _ _ => False).
Proof.
  intros Hc Hb Hmode. calm_start. rewrite Hc. simpl. rewrite Hb. simpl.
  destruct Hmode as [-> | [-> | ->]]; simpl.
  - left. rewrite Hb. auto.
  - left. rewrite Hb. auto.
  - resolve_call. right. rewrite Hb. subst n. solve_calm.
Qed.

Lemma openPage_calm n g c :
  page g = None ->
  context g = Some c ->
  hoare (calm n g) openPage
    (fun _ => calm (S n) (withPage (Some {| page_id := n; page_context := c |}) g))
    (fun _ _ => False).
Proof.
  intros Hp Hc. calm_start. rewrite Hp. simpl. rewrite Hc. simpl.
  resolve_call. subst n.
  destruct (truthy _); simpl; solve_calm.
Qed.

Lemma initAll_calm n config :
  validMode config ->
  hoare (calm n (initialGlobal config)) initAll
    (fun _ m =>
       exists b c p n',
         calm n' {| browser := Some b; context := Some c; page := Some p;
                    puppeteerConfig := config |} m /\
         n <= browser_id b /\ contextIssued n' c /\
         (forall c0, contextIssued n c0 -> c <> c0) /\
         n <= page_id p)
    (fun _ _ => False).
Proof.
  intros Hmode. unfold initAll.
  eapply hoare_bind; [apply connectBrowser_calm; reflexivity | intros []].
  eapply hoare_bind;
    [apply (createContext_calm _ _ {| browser_id := n |});
       [reflexivity | reflexivity | exact Hmode] | intros []].
  intros m [Hm | Hm];
    match type of Hm with
    | calm ?k ?g' _ =>
        pose proof (openPage_calm k g' _ eq_refl eq_refl m Hm) as H
    end;
    (destruct (openPage m) as [[[]|e] m']; [|exact H]);
    eexists _, _, _, _; (split; [exact H|]); simpl;
    (repeat split; try lia);
    intros [b0|b0 k0] H0 [= E]; simpl in H0; subst; simpl in H0; lia.
Qed.

(** Setup keeps the configuration and the client's cooperation, also when
    it stops at a rejected mode. *)
Ltac settled_start :=
  let g := fresh "g" in let w := fresh "w" in
  let Hcfg := fresh "Hcfg" in let Hco := fresh "Hco" in
  intros [g w] [Hcfg Hco]; unfold settled in *; unfold_prog; simpl in *.

Lemma connectBrowser_settled config : stable (settled config) connectBrowser.
Proof.
  settled_start. destruct (browser g); simpl; [auto|].
  resolve_call. split; [assumption | solve_quiet].
Qed.

Lemma createContext_settled config : stable (settled config) createContext.
Proof.
  settled_start. destruct (context g); simpl; [auto|].
  destruct (browser g); simpl; [|auto].
  destruct (String.eqb _ "default"); simpl; [auto|].
  destruct (String.eqb _ "incognito"); simpl; [|auto].
  resolve_call. split; [assumption | solve_quiet].
Qed.

Lemma openPage_settled config : stable (settled config) openPage.
Proof.
  settled_start. destruct (page g); simpl; [auto|].
  destruct (context g); simpl; [|auto].
  resolve_call.
  destruct (truthy _); simpl; (split; [assumption | solve_quiet]).
Qed.

Lemma initAll_settled config : stable (settled config) initAll.
Proof.
  unfold initAll.
  apply stable_bind; [apply connectBrowser_settled | intros _].
  apply stable_bind; [apply createContext_settled | intros _].
  apply openPage_settled.
Qed.

(** C6. From the initial state and with a client whose calls resolve,
    [initAll] followed by [closeAll] ends with the global object equal to
    the initial one: browser, context and page cleared, configuration
    untouched.  Under a mode that [createContext] accepts the setup in
    between completes with all three handles held. *)
Theorem setup_then_teardown_restores (config : PuppeteerConfig) (w : World) :
  cooperative w ->
  let m1 := snd (initAll (start config w)) in
  (validMode config ->
   fst (initAll (start config w)) = Normal tt /\
   is_Some (browser (global m1)) /\
   is_Some (context (global m1)) /\
   is_Some (page (global m1))) /\
  fst (closeAll m1) = Normal tt /\
  global (snd (closeAll m1)) = initialGlobal config.
Proof.
  intros Hco m1. subst m1. split.
  - intros Hmode.
    pose proof (initAll_calm (fresh w) config Hmode (start config w)) as H.
    destruct (initAll (start config w)) as [[[]|e] m1]; simpl.
    + destruct H as (b & c & p & n' & (Hg & _) & _);
        [repeat split; auto|].
      rewrite Hg. simpl. repeat split; eauto.
    + destruct H. repeat split; auto.
  - pose proof (initAll_settled config (start config w)) as H.
    assert (Hs : settled config (snd (initAll (start config w)))).
    { destruct (initAll (start config w)) as [[[]|e] m1]; apply H;
        split; auto. }
    destruct Hs as [Hcfg Hco1].
    set (m1 := snd (initAll (start config w))) in *.
    pose proof (closeAll_calm (fresh (world m1)) (global m1) m1) as Hc.
    destruct (closeAll m1) as [[[]|e] m2]; simpl.
    + destruct Hc as (Hg & _); [repeat split; auto|].
      split; [reflexivity|]. rewrite Hg, Hcfg. reflexivity.
    + destruct Hc. repeat split; auto.
Qed.

Lemma setup_then_teardown_restores_witness :
  cooperative quietWorld /\
  global (snd (closeAll (snd (initAll (start defaultConfig quietWorld))))) =
    initialGlobal defaultConfig.
Proof.
  assert (H : cooperative quietWorld) by constructor.
  split; [exact H|].
  exact (proj2 (proj2 (setup_then_teardown_restores defaultConfig quietWorld H))).
Defined.

(** ** Reachable states *)

Lemma accepted_mode (config : PuppeteerConfig) :
  let mode := default "default"%string (browserContext config) in
  String.eqb mode "default" = true \/ String.eqb mode "incognito" = true ->
  validMode config.
Proof.
  unfold validMode. destruct (browserContext config) as [s|]; simpl.
  - intros [H | H]; apply String.eqb_eq in H; subst; auto.
  - auto.
Qed.

Ltac sound_start :=
  let b := fresh "b" in let c := fresh "c" in let p := fresh "p" in
  let cfg := fresh "cfg" in let w := fresh "w" in
  let Hi := fresh "Hi" in let Hv := fresh "Hv" in
  intros [[b c p cfg] w] [Hi Hv]; unfold sound, issued in *;
  unfold_prog; simpl in *.

Ltac solve_issued :=
  repeat match goal with
         | c : BrowserContext |- _ => destruct c
         | o : option _ |- _ => destruct o
         end;
  simpl in *; intuition (try lia).

Ltac solve_sound :=
  simpl in *;
  split;
  [ solve_issued
  | solve [ assumption
          | intros [? ?]; discriminate
          | intros _; apply accepted_mode; simpl; auto ] ].

Lemma connectBrowser_sound : stable sound connectBrowser.
Proof.
  sound_start. destruct b; simpl; [auto|].
  case_rejects; solve_sound.
Qed.

Lemma disconnectBrowser_sound : stable sound disconnectBrowser.
Proof.
  sound_start. destruct b; simpl; [|auto].
  case_rejects; solve_sound.
Qed.

Lemma createContext_sound : stable sound createContext.
Proof.
  sound_start. destruct c; simpl; [auto|].
  destruct b; simpl; [|auto].
  destruct (String.eqb _ "default") eqn:Hd; simpl; [solve_sound|].
  destruct (String.eqb _ "incognito") eqn:Hn; simpl; [|auto].
  case_rejects; solve_sound.
Qed.

Lemma closeContext_sound : stable sound closeContext.
Proof.
  sound_start. destruct c as [c|]; simpl; [|auto].
  destruct (isIncognito c); simpl; [case_rejects|]; solve_sound.
Qed.

Lemma openPage_sound : stable sound openPage.
Proof.
  sound_start. destruct p; simpl; [auto|].
  destruct c; simpl; [|auto].
  case_rejects; [solve_sound|].
  destruct (truthy _); simpl; solve_sound.
Qed.

Lemma closePage_sound : stable sound closePage.
Proof.
  sound_start. destruct p; simpl; [|auto].
  destruct (truthy _); simpl; case_rejects; solve_sound.
Qed.

Lemma initAll_sound : stable sound initAll.
Proof.
  unfold initAll.
  apply stable_bind; [apply connectBrowser_sound | intros _].
  apply stable_bind; [apply createContext_sound | intros _].
  apply openPage_sound.
Qed.

Lemma closeAll_sound : stable sound closeAll.
Proof.
  unfold closeAll.
  apply stable_bind; [apply closePage_sound | intros _].
  apply stable_bind; [apply closeContext_sound | intros _].
  apply disconnectBrowser_sound.
Qed.

Lemma perform_sound (o : Op) : stable sound (perform o).
Proof.
  destruct o; simpl.
  - apply connectBrowser_sound.
  - apply createContext_sound.
  - apply openPage_sound.
  - apply closePage_sound.
  - apply closeContext_sound.
  - apply disconnectBrowser_sound.
  - apply initAll_sound.
  - apply closeAll_sound.
  - apply stable_bind; [apply closePage_sound | intros []; apply openPage_sound].
  - apply stable_bind; [apply closeAll_sound | intros []; apply initAll_sound].
Qed.

Lemma run_sound (ops : list Op) : forall m, sound m -> sound (run ops m).
Proof.
  induction ops as [|o rest IH]; intros m Hm; simpl; [exact Hm|].
  apply IH. pose proof (perform_sound o m Hm) as H.
  destruct (perform o m) as [[[]|e] m']; exact H.
Qed.

Lemma start_sound (config : PuppeteerConfig) (w : World) :
  sound (start config w).
Proof.
  split; [repeat split|]. simpl. intros [x Hx]; discriminate.
Qed.

(** ** Resets *)

Lemma resetPage_calm n g c :
  context g = Some c ->
  hoare (calm n g) resetPage
    (fun _ => calm (S n) (withPage (Some {| page_id := n; page_context := c |}) g))
    (fun _ _ => False).
Proof.
  intros Hc. unfold resetPage.
  eapply hoare_bind; [apply closePage_calm | intros []].
  eapply hoare_consequence;
    [apply (openPage_calm n (withPage None g) c); [reflexivity | exact Hc]
    | auto | | auto].
  intros [] m. exact id.
Qed.

Lemma resetBrowser_calm n g :
  validMode (puppeteerConfig g) ->
  hoare (calm n g) resetBrowser
    (fun _ m =>
       exists b c p n',
         calm n' {| browser := Some b; context := Some c; page := Some p;
                    puppeteerConfig := puppeteerConfig g |} m /\
         n <= browser_id b /\ contextIssued n' c /\
         (forall c0, contextIssued n c0 -> c <> c0) /\
         n <= page_id p)
    (fun _ _ => False).
Proof.
  intros Hmode. unfold resetBrowser.
  eapply hoare_bind; [apply closeAll_calm | intros []].
  apply initAll_calm, Hmode.
Qed.

(** C9. In every state the coordinator reaches (from the initial state,
    by any operations, whatever the client did so far) with browser,
    context and page held, and with a client that from now on resolves
    its calls and returns new handles: [resetPage] completes and holds a
    page other than the one before, the browser and context being kept;
    [resetBrowser] completes and holds a browser, a context and a page
    that are all other than the ones before. *)
Theorem reset_yields_new_handles (config : PuppeteerConfig) (w : World)
    (ops : list Op) (b : Browser) (c : BrowserContext) (p : Page) :
  let m := run ops (start config w) in
  browser (global m) = Some b ->
  context (global m) = Some c ->
  page (global m) = Some p ->
  cooperative (world m) ->
  (exists p',
     fst (resetPage m) = Normal tt /\
     global (snd (resetPage m)) = withPage (Some p') (global m) /\
     p' <> p) /\
  (exists b' c' p',
     fst (resetBrowser m) = Normal tt /\
     browser (global (snd (resetBrowser m))) = Some b' /\
     context (global (snd (resetBrowser m))) = Some c' /\
     page (global (snd (resetBrowser m))) = Some p' /\
     b' <> b /\ c' <> c /\ p' <> p).
Proof.
  intros m Hb Hc Hp Hco.
  destruct (run_sound ops _ (start_sound config w)) as [Hi Hv].
  fold m in Hi, Hv. unfold issued in Hi. rewrite Hb, Hc, Hp in Hi.
  simpl in Hi. destruct Hi as (Hib & Hic & Hip).
  assert (Hcalm : calm (fresh (world m)) (global m) m) by (repeat split; auto).
  split.
  - pose proof (resetPage_calm _ _ c Hc m Hcalm) as H.
    destruct (resetPage m) as [[[]|e] m']; [|destruct H].
    destruct H as (Hg & _). simpl. eexists. repeat split; [exact Hg|].
    intros E. rewrite <- E in Hip. simpl in Hip. lia.
  - assert (Hmode : validMode (puppeteerConfig (global m))).
    { apply Hv. rewrite Hc. eexists; reflexivity. }
    pose proof (resetBrowser_calm _ _ Hmode m Hcalm) as H.
    destruct (resetBrowser m) as [[[]|e] m']; [|destruct H].
    destruct H as (b' & c' & p' & n' & (Hg & _) & Hb' & _ & Hc' & Hp').
    simpl. rewrite Hg. simpl. exists b', c', p'.
    repeat split; try reflexivity.
    + intros E. subst b'. lia.
    + apply Hc', Hic.
    + intros E. subst p'. lia.
Qed.


(** ** Concrete runs *)

Lemma reset_yields_new_handles_witness :
  let b := {| browser_id := 0 |} in
  let c := IncognitoContext b 1 in
  let p := {| page_id := 2; page_context := c |} in
  (browser (global retried) = Some b /\
   context (global retried) = Some c /\
   page (global retried) = Some p /\
   cooperative (world retried)) /\
  (exists p',
     fst (resetPage retried) = Normal tt /\
     global (snd (resetPage retried)) = withPage (Some p') (global retried) /\
     p' <> p) /\
  (exists b' c' p',
     fst (resetBrowser retried) = Normal tt /\
     browser (global (snd (resetBrowser retried))) = Some b' /\
     context (global (snd (resetBrowser retried))) = Some c' /\
     page (global (snd (resetBrowser retried))) = Some p' /\
     b' <> b /\ c' <> c /\ p' <> p).
Proof.
  intros b c p.
  assert (Hco : cooperative (world retried)) by (vm_compute; constructor).
  split; [repeat split; exact Hco|].
  exact (reset_yields_new_handles incognitoConfig
           {| fresh := 0; faults := [true]; listeners := ∅; trace := [] |}
           [InitAll; InitAll] b c p eq_refl eq_refl eq_refl Hco).
Defined.

Lemma acquire_twice_fails_witness :
  (is_Some (browser (global pageOpen)) /\
   is_Some (context (global pageOpen)) /\
   is_Some (page (global pageOpen))) /\
  fst (connectBrowser pageOpen) =
    Abrupt (Thrown {| message :=
      "Cannot connect browser before closing previous browser." |}) /\
  fst (createContext pageOpen) =
    Abrupt (Thrown {| message :=
      "Cannot create context before closing previous context." |}) /\
  fst (openPage pageOpen) =
    Abrupt (Thrown {| message :=
      "Cannot open page before closing previous page." |}).
Proof.
  assert (Hb : is_Some (browser (global pageOpen))) by (eexists; reflexivity).
  assert (Hc : is_Some (context (global pageOpen))) by (eexists; reflexivity).
  assert (Hp : is_Some (page (global pageOpen))) by (eexists; reflexivity).
  destruct (acquire_twice_fails pageOpen) as (H1 & H2 & H3).
  split; [auto|].
  rewrite (H1 Hb), (H2 Hc), (H3 Hp). auto.
Defined.

Lemma release_unheld_is_noop_witness :
  (page (global idle) = None /\ context (global idle) = None /\
   browser (global idle) = None) /\
  closePage idle = (Normal tt, idle) /\
  closeContext idle = (Normal tt, idle) /\
  disconnectBrowser idle = (Normal tt, idle).
Proof.
  destruct (release_unheld_is_noop idle) as (H1 & H2 & H3).
  split; [auto|].
  split; [exact (H1 eq_refl) | split; [exact (H2 eq_refl) | exact (H3 eq_refl)]].
Defined.

Lemma access_before_acquire_fails_witness :
  (browser (global idle) = None /\ context (global idle) = None /\
   page (global idle) = None) /\
  fst (getBrowser idle) =
    Abrupt (Thrown {| message :=
      "Cannot access browser before launching browser." |}) /\
  fst (getContext idle) =
    Abrupt (Thrown {| message :=
      "Cannot access context before launching context." |}) /\
  fst (getPage idle) =
    Abrupt (Thrown {| message :=
      "Cannot access page before launching browser." |}).
Proof.
  destruct (access_before_acquire_fails idle) as (H1 & H2 & H3).
  split; [auto|].
  rewrite (H1 eq_refl), (H2 eq_refl), (H3 eq_refl). auto.
Defined.

Lemma acquire_failure_is_atomic_witness :
  let m := run [ConnectBrowser] (start bogusConfig quietWorld) in
  createContext m = (Abrupt (Thrown (invalidBrowserContext "private")), m) /\
  global m = global m /\
  (forall er, Thrown (invalidBrowserContext "private") = Thrown er -> m = m).
Proof.
  intros m. split; [reflexivity|].
  exact (acquire_failure_is_atomic createContext m m
           (Thrown (invalidBrowserContext "private"))
           (or_intror (or_introl eq_refl)) eq_refl).
Defined.

Lemma createContext_by_mode_witness :
  let m := run [ConnectBrowser] (start incognitoConfig quietWorld) in
  let b := {| browser_id := 0 |} in
  (browser (global m) = Some b /\ context (global m) = None) /\
  context (global (snd (createContext m))) = Some (IncognitoContext b 1).
Proof.
  intros m b. split; [split; reflexivity|].
  destruct (createContext_by_mode m b eq_refl eq_refl) as (_ & H & _).
  rewrite (H eq_refl eq_refl). reflexivity.
Defined.

Lemma closeContext_closes_only_incognito_witness :
  let c := IncognitoContext {| browser_id := 0 |} 1 in
  let m := run [ClosePage] incognitoOpen in
  context (global m) = Some c /\
  trace (world (snd (closeContext m))) = trace (world m) ++ [ContextClose c] /\
  context (global (snd (closeContext m))) = None.
Proof.
  intros c m. split; [reflexivity|].
  destruct (closeContext_closes_only_incognito m c eq_refl) as (H1 & H2 & _).
  split; [exact H1|].
  destruct (H2 (or_intror eq_refl)) as [_ Hg]. rewrite Hg. reflexivity.
Defined.

Lemma pageerror_listener_iff_exitOnPageError_witness :
  let m := run [ConnectBrowser; CreateContext] (start incognitoConfig quietWorld) in
  let c := IncognitoContext {| browser_id := 0 |} 1 in
  let p := {| page_id := 2; page_context := c |} in
  (page (global m) = None /\ context (global m) = Some c /\
   nextRejects (world m) = false) /\
  listenersOf (world (snd (openPage m))) p = [HandlePageError] /\
  (forall error : Error,
     trace (world (snd (emitPageError p error (snd (openPage m))))) =
       trace (world (snd (openPage m))) ++
       [ProcessEmit "uncaughtException" error]).
Proof.
  intros m c p. split; [repeat split; reflexivity|].
  destruct (pageerror_listener_iff_exitOnPageError m) as [H _].
  destruct (H c eq_refl eq_refl eq_refl) as (_ & _ & _ & Hl & He & _).
  split; [exact Hl | exact He].
Defined.

(** A whole lifecycle against a cooperating client, call by call: the
    listener goes on after the page is created and comes off before the
    page is closed; the incognito context is closed, then the browser is
    disconnected. *)
Example incognito_lifecycle_trace :
  let b := {| browser_id := 0 |} in
  let c := IncognitoContext b 1 in
  let p := {| page_id := 2; page_context := c |} in
  trace (world (run [InitAll; CloseAll] (start incognitoConfig quietWorld))) =
    [ConnectBrowserFromWorker incognitoConfig;
     CreateIncognitoBrowserContext b;
     ContextNewPage c;
     PageOn p HandlePageError;
     PageOff p HandlePageError;
     PageClose p false;
     ContextClose c;
     BrowserDisconnect b].
Proof. reflexivity. Qed.

(** With the default mode the context is the browser's own: it is never
    closed. *)
Example default_lifecycle_trace :
  let b := {| browser_id := 0 |} in
  let p := {| page_id := 1; page_context := DefaultContext b |} in
  trace (world (run [InitAll; CloseAll] idle)) =
    [ConnectBrowserFromWorker defaultConfig;
     ContextNewPage (DefaultContext b);
     PageClose p false;
     BrowserDisconnect b].
Proof. reflexivity. Qed.

(** A rejected [context.close()] leaves the context held. *)
Example rejected_close_keeps_context :
  let m := {| global := global (run [ClosePage] incognitoOpen);
              world := {| fresh := 3; faults := [true];
                          listeners := ∅; trace := [] |} |} in
  closeContext m =
    (Abrupt (Rejected (ContextClose (IncognitoContext {| browser_id := 0 |} 1))),
     {| global := global m;
        world := {| fresh := 3; faults := [];
                    listeners := ∅;
                    trace := [ContextClose (IncognitoContext {| browser_id := 0 |} 1)] |} |}).
Proof. reflexivity. Qed.

(** * Further properties of the coordinator *)

(** ** Teardown *)

Lemma closeAll_idle (m : Machine) :
  browser (global m) = None -> context (global m) = None ->
  page (global m) = None ->
  closeAll m = (Normal tt, m).
Proof.
  intros Hb Hc Hp. unfold_prog. rewrite Hp. simpl. rewrite Hc. simpl.
  rewrite Hb. reflexivity.
Qed.

(** X1. Teardown cleans up from any state.  Whatever handles are held,
    in whatever combination, [closeAll] against a client whose calls
    resolve completes and leaves browser, context and page cleared with
    the configuration kept; a second [closeAll] then does nothing at
    all. *)
Theorem closeAll_clears_any_state (m : Machine) :
  cooperative (world m) ->
  fst (closeAll m) = Normal tt /\
  global (snd (closeAll m)) = initialGlobal (puppeteerConfig (global m)) /\
  closeAll (snd (closeAll m)) = (Normal tt, snd (closeAll m)).
Proof.
  intros Hco.
  pose proof (closeAll_calm (fresh (world m)) (global m) m) as H.
  destruct (closeAll m) as [[[]|e] m']; simpl.
  - destruct H as (Hg & _); [repeat split; auto|].
    repeat split; [exact Hg|].
    apply closeAll_idle; rewrite Hg; reflexivity.
  - destruct H. repeat split; auto.
Qed.

Lemma closeAll_clears_any_state_witness :
  cooperative (world incognitoOpen) /\
  global (snd (closeAll incognitoOpen)) = initialGlobal incognitoConfig.
Proof.
  assert (H : cooperative (world incognitoOpen)) by (vm_compute; constructor).
  split; [exact H|].
  exact (proj1 (proj2 (closeAll_clears_any_state incognitoOpen H))).
Defined.

(** X2. Teardown stops at the first call that rejects.  When the page's
    [close()] rejects, [closeAll] rejects with it, every reference stays as
    it was, and neither the context is closed nor the browser
    disconnected: the only calls issued are the optional [off] and the
    [close] of the page. *)
Theorem closeAll_stops_at_rejected_page_close (m : Machine) (p : Page) :
  page (global m) = Some p ->
  nextRejects (world m) = true ->
  let config := puppeteerConfig (global m) in
  let unload := truthy (runBeforeUnloadOnClose config) in
  fst (closeAll m) = Abrupt (Rejected (PageClose p unload)) /\
  global (snd (closeAll m)) = global m /\
  trace (world (snd (closeAll m))) =
    trace (world m) ++
    (if truthy (exitOnPageError config) then [PageOff p HandlePageError] else []) ++
    [PageClose p unload].
Proof.
  intros Hp Hrej config unload. subst config unload.
  unfold_prog. simpl. rewrite Hp. simpl.
  destruct (truthy (exitOnPageError _)); simpl;
    unfold nextRejects in *; simpl; rewrite Hrej; simpl.
  - rewrite <- app_assoc. repeat split.
  - repeat split.
Qed.

Lemma closeAll_stops_at_rejected_page_close_witness :
  let m := {| global := global pageOpen;
              world := {| fresh := 2; faults := [true];
                          listeners := ∅; trace := [] |} |} in
  let p := {| page_id := 1;
              page_context := DefaultContext {| browser_id := 0 |} |} in
  (page (global m) = Some p /\ nextRejects (world m) = true) /\
  fst (closeAll m) = Abrupt (Rejected (PageClose p false)) /\
  is_Some (browser (global (snd (closeAll m)))).
Proof.
  intros m p. split; [split; reflexivity|].
  destruct (closeAll_stops_at_rejected_page_close m p eq_refl eq_refl)
    as (Hr & Hg & _).
  split; [exact Hr|]. rewrite Hg. eexists; reflexivity.
Defined.

(** ** The configuration *)

Ltac steady_start :=
  let b := fresh "b" in let c := fresh "c" in let p := fresh "p" in
  let cfg := fresh "cfg" in let w := fresh "w" in
  let Hcfg := fresh "Hcfg" in let Hk := fresh "Hk" in let Hl := fresh "Hl" in
  intros [[b c p cfg] w] (Hcfg & Hk & Hl);
  unfold steady, configIs, kindAsConfigured, listenerOnce in *;
  unfold_prog; unfold listenersOf in *; simpl in *.

Lemma connectBrowser_steady config : stable (steady config) connectBrowser.
Proof. steady_start. step_cases; repeat split; auto. Qed.

Lemma disconnectBrowser_steady config : stable (steady config) disconnectBrowser.
Proof. steady_start. step_cases; repeat split; auto. Qed.

Lemma closeContext_steady config : stable (steady config) closeContext.
Proof. steady_start. step_cases; repeat split; auto. Qed.

Lemma mode_default_not_incognito (config : PuppeteerConfig) :
  String.eqb (default "default"%string (browserContext config)) "default" = true ->
  wantsIncognito config = false.
Proof.
  unfold wantsIncognito. destruct (browserContext config) as [s|]; simpl; [|auto].
  intros H. apply String.eqb_eq in H. subst s. reflexivity.
Qed.

Lemma mode_incognito_wanted (config : PuppeteerConfig) :
  String.eqb (default "default"%string (browserContext config)) "incognito" = true ->
  wantsIncognito config = true.
Proof.
  unfold wantsIncognito. destruct (browserContext config) as [s|]; simpl; auto.
Qed.

Lemma createContext_steady config : stable (steady config) createContext.
Proof.
  steady_start. step_cases; repeat split; auto.
  - symmetry. apply mode_default_not_incognito. assumption.
  - symmetry. apply mode_incognito_wanted. assumption.
Qed.

Lemma openPage_steady config : stable (steady config) openPage.
Proof.
  steady_start. step_cases; repeat split; auto;
    rewrite ?lookup_insert_eq; simpl; auto.
Qed.

Lemma closePage_steady config : stable (steady config) closePage.
Proof.
  steady_start. step_cases; repeat split; auto;
    rewrite ?lookup_insert_eq; simpl.
  - left. destruct Hl as [-> | [-> _]]; reflexivity.
  - destruct Hl as [H | [_ H]]; [left; exact H | discriminate].
Qed.

Lemma initAll_steady config : stable (steady config) initAll.
Proof.
  unfold initAll.
  apply stable_bind; [apply connectBrowser_steady | intros []].
  apply stable_bind; [apply createContext_steady | intros []].
  apply openPage_steady.
Qed.

Lemma closeAll_steady config : stable (steady config) closeAll.
Proof.
  unfold closeAll.
  apply stable_bind; [apply closePage_steady | intros []].
  apply stable_bind; [apply closeContext_steady | intros []].
  apply disconnectBrowser_steady.
Qed.

Lemma perform_steady config (o : Op) : stable (steady config) (perform o).
Proof.
  destruct o; simpl.
  - apply connectBrowser_steady.
  - apply createContext_steady.
  - apply openPage_steady.
  - apply closePage_steady.
  - apply closeContext_steady.
  - apply disconnectBrowser_steady.
  - apply initAll_steady.
  - apply closeAll_steady.
  - apply stable_bind; [apply closePage_steady | intros []; apply openPage_steady].
  - apply stable_bind; [apply closeAll_steady | intros []; apply initAll_steady].
Qed.

Lemma run_steady config (ops : list Op) :
  forall m, steady config m -> steady config (run ops m).
Proof.
  induction ops as [|o rest IH]; intros m Hm; simpl; [exact Hm|].
  apply IH. pose proof (perform_steady config o m Hm) as H.
  destruct (perform o m) as [[[]|e] m']; exact H.
Qed.

Lemma start_steady (config : PuppeteerConfig) (w : World) :
  steady config (start config w).
Proof. repeat split. Qed.

(** X3. The kind of the held context is the configured one.  In every
    state reached from the initial state, by any operations with any
    outcomes, a held context is incognito exactly when the configuration's
    [browserContext] is ["incognito"]; so [closeContext] closes the
    context under an incognito configuration and never otherwise. *)
Theorem context_kind_as_configured (config : PuppeteerConfig) (w : World)
    (ops : list Op) (c : BrowserContext) :
  let m := run ops (start config w) in
  context (global m) = Some c ->
  isIncognito c = wantsIncognito config /\
  trace (world (snd (closeContext m))) =
    trace (world m) ++ (if wantsIncognito config then [ContextClose c] else []).
Proof.
  intros m Hc.
  destruct (run_steady config ops _ (start_steady config w)) as (_ & Hk & _).
  fold m in Hk. unfold kindAsConfigured in Hk. rewrite Hc in Hk. simpl in Hk.
  assert (Hcfg : puppeteerConfig (global m) = config).
  { apply (run_steady config ops _ (start_steady config w)). }
  rewrite Hcfg in Hk. split; [exact Hk|].
  rewrite <- Hk. unfold_prog. simpl. rewrite Hc.
  destruct (isIncognito c); simpl; [case_rejects; reflexivity|].
  now rewrite app_nil_r.
Qed.

Lemma context_kind_as_configured_witness :
  let c := IncognitoContext {| browser_id := 0 |} 1 in
  let m := run [InitAll] (start incognitoConfig quietWorld) in
  context (global m) = Some c /\
  isIncognito c = wantsIncognito incognitoConfig.
Proof.
  intros c m.
  assert (Hc : context (global m) = Some c) by (vm_compute; reflexivity).
  split; [exact Hc|].
  exact (proj1 (context_kind_as_configured incognitoConfig quietWorld
                  [InitAll] c Hc)).
Defined.

(** X4. A page error is reported at most once.  In every state reached
    from the initial state the held page carries [handlePageError] at most
    once, and only under a truthy [exitOnPageError]: an error emitted by
    the held page adds at most one ["uncaughtException"] to the process,
    carrying that error, and none when the setting is off. *)
Theorem page_error_forwarded_at_most_once (config : PuppeteerConfig)
    (w : World) (ops : list Op) (p : Page) (error : Error) :
  let m := run ops (start config w) in
  page (global m) = Some p ->
  exists forwarded,
    trace (world (snd (emitPageError p error m))) = trace (world m) ++ forwarded /\
    (forwarded = [] \/
     (forwarded = [ProcessEmit "uncaughtException" error] /\
      truthy (exitOnPageError config) = true)).
Proof.
  intros m Hp.
  destruct (run_steady config ops _ (start_steady config w)) as (Hcfg & _ & Hl).
  fold m in Hcfg, Hl. unfold listenerOnce in Hl. rewrite Hp in Hl.
  unfold configIs in Hcfg. rewrite Hcfg in Hl. simpl in Hl.
  unfold emitPageError, getWorld, bind. simpl.
  destruct Hl as [-> | [-> Hen]]; simpl.
  - exists []. split; [now rewrite app_nil_r | now left].
  - exists [ProcessEmit "uncaughtException" error]. split; [reflexivity|].
    right. split; [reflexivity | exact Hen].
Qed.

Lemma page_error_forwarded_at_most_once_witness :
  let p := {| page_id := 2;
              page_context := IncognitoContext {| browser_id := 0 |} 1 |} in
  let error := {| message := "boom" |} in
  let m := run [InitAll] (start incognitoConfig quietWorld) in
  page (global m) = Some p /\
  exists forwarded,
    trace (world (snd (emitPageError p error m))) = trace (world m) ++ forwarded /\
    (forwarded = [] \/
     (forwarded = [ProcessEmit "uncaughtException" error] /\
      truthy (exitOnPageError incognitoConfig) = true)).
Proof.
  intros p error m.
  assert (Hp : page (global m) = Some p) by (vm_compute; reflexivity).
  split; [exact Hp|].
  exact (page_error_forwarded_at_most_once incognitoConfig quietWorld
           [InitAll] p error Hp).
Defined.

(** X5. A rejected [page.close()] has already cost the listener.  With
    [exitOnPageError] truthy, [closePage] takes [handlePageError] off
    before it awaits the close; when the close rejects the page stays held
    but without the listener, and an error it emits afterwards no longer
    reaches the process. *)
Theorem closePage_rejected_drops_listener (m : Machine) (p : Page) :
  page (global m) = Some p ->
  truthy (exitOnPageError (puppeteerConfig (global m))) = true ->
  listenersOf (world m) p = [HandlePageError] ->
  nextRejects (world m) = true ->
  let m' := snd (closePage m) in
  page (global m') = Some p /\
  listenersOf (world m') p = [] /\
  (forall error,
     trace (world (snd (emitPageError p error m'))) = trace (world m')).
Proof.
  intros Hp Hen Hl Hrej m'. subst m'.
  unfold emitPageError. unfold_prog. unfold listenersOf in *. simpl.
  rewrite Hp. simpl. rewrite Hen. simpl. rewrite Hl. simpl.
  unfold nextRejects in *. simpl. rewrite Hrej. simpl.
  rewrite lookup_insert_eq. simpl. repeat split; auto.
Qed.

Lemma closePage_rejected_drops_listener_witness :
  let m := {| global := global incognitoOpen;
              world := {| fresh := fresh (world incognitoOpen);
                          faults := [true];
                          listeners := listeners (world incognitoOpen);
                          trace := [] |} |} in
  let p := {| page_id := 2;
              page_context := IncognitoContext {| browser_id := 0 |} 1 |} in
  (page (global m) = Some p /\
   listenersOf (world m) p = [HandlePageError] /\
   nextRejects (world m) = true) /\
  page (global (snd (closePage m))) = Some p /\
  listenersOf (world (snd (closePage m))) p = [].
Proof.
  intros m p. split; [repeat split; reflexivity|].
  destruct (closePage_rejected_drops_listener m p eq_refl eq_refl eq_refl eq_refl)
    as (H1 & H2 & _).
  split; [exact H1 | exact H2].
Defined.

(** ** What no operation touches *)

Lemma keepsConfig_bind {A B} (c : Prog A) (k : A -> Prog B) :
  keepsConfig c -> (forall a, keepsConfig (k a)) -> keepsConfig (bind c k).
Proof.
  intros Hc Hk m. unfold bind. specialize (Hc m).
  destruct (c m) as [[a|e] m']; simpl in *; [|exact Hc].
  rewrite <- Hc. apply Hk.
Qed.

Ltac keeps_config :=
  intros [[? ? ? ?] ?]; unfold_prog; step_cases; reflexivity.

Lemma connectBrowser_keepsConfig : keepsConfig connectBrowser.
Proof. keeps_config. Qed.

Lemma createContext_keepsConfig : keepsConfig createContext.
Proof. keeps_config. Qed.

Lemma openPage_keepsConfig : keepsConfig openPage.
Proof. keeps_config. Qed.

Lemma closePage_keepsConfig : keepsConfig closePage.
Proof. keeps_config. Qed.

Lemma closeContext_keepsConfig : keepsConfig closeContext.
Proof. keeps_config. Qed.

Lemma disconnectBrowser_keepsConfig : keepsConfig disconnectBrowser.
Proof. keeps_config. Qed.

Lemma initAll_keepsConfig : keepsConfig initAll.
Proof.
  unfold initAll.
  apply keepsConfig_bind; [apply connectBrowser_keepsConfig | intros []].
  apply keepsConfig_bind; [apply createContext_keepsConfig | intros []].
  apply openPage_keepsConfig.
Qed.

Lemma closeAll_keepsConfig : keepsConfig closeAll.
Proof.
  unfold closeAll.
  apply keepsConfig_bind; [apply closePage_keepsConfig | intros []].
  apply keepsConfig_bind; [apply closeContext_keepsConfig | intros []].
  apply disconnectBrowser_keepsConfig.
Qed.

Lemma perform_keepsConfig (o : Op) : keepsConfig (perform o).
Proof.
  destruct o; simpl.
  - apply connectBrowser_keepsConfig.
  - apply createContext_keepsConfig.
  - apply openPage_keepsConfig.
  - apply closePage_keepsConfig.
  - apply closeContext_keepsConfig.
  - apply disconnectBrowser_keepsConfig.
  - apply initAll_keepsConfig.
  - apply closeAll_keepsConfig.
  - apply keepsConfig_bind;
      [apply closePage_keepsConfig | intros []; apply openPage_keepsConfig].
  - apply keepsConfig_bind;
      [apply closeAll_keepsConfig | intros []; apply initAll_keepsConfig].
Qed.

(** X6. The coordinator never writes the configuration.  From any state,
    after any sequence of operations, each succeeding or failing in any
    way, [global.puppeteerConfig] is the object it was. *)
Theorem config_is_never_written (ops : list Op) (m : Machine) :
  puppeteerConfig (global (run ops m)) = puppeteerConfig (global m).
Proof.
  revert m. induction ops as [|o rest IH]; intros m; simpl; [reflexivity|].
  rewrite IH. apply perform_keepsConfig.
Qed.

(** ** Ownership *)

Lemma connectBrowser_nested : stable nestedIn connectBrowser.
Proof.
  intros [[b c p cfg] w] H. unfold_prog. simpl in *.
  destruct b; simpl; [exact H|]. case_rejects; [exact H|]. solve_nested.
Qed.

Lemma createContext_nested : stable nestedIn createContext.
Proof.
  intros [[b c p cfg] w] H. unfold_prog. simpl in *.
  destruct c; simpl; [exact H|].
  destruct b; simpl; [|exact H].
  destruct (String.eqb _ "default"); simpl; [solve_nested|].
  destruct (String.eqb _ "incognito"); simpl; [|exact H].
  case_rejects; [exact H | solve_nested].
Qed.

Lemma openPage_nested : stable nestedIn openPage.
Proof.
  intros [[b c p cfg] w] H. unfold_prog. simpl in *.
  destruct p; simpl; [exact H|].
  destruct c; simpl; [|exact H].
  case_rejects; [exact H|].
  destruct (truthy _); simpl; solve_nested.
Qed.

Lemma closePage_nested :
  hoare nestedIn closePage
    (fun _ m => nestedIn m /\ page (global m) = None) (fun _ => nestedIn).
Proof.
  intros [[b c p cfg] w] H. unfold_prog. simpl in *.
  destruct p; simpl; [|split; [exact H|reflexivity]].
  destruct (truthy (exitOnPageError cfg)); simpl; case_rejects;
    first [exact H | split; [solve_nested | reflexivity]].
Qed.

Lemma closeContext_nested :
  hoare (fun m => nestedIn m /\ page (global m) = None) closeContext
    (fun _ m => nestedIn m /\ context (global m) = None) (fun _ => nestedIn).
Proof.
  intros [[b c p cfg] w] [H Hp]. unfold_prog. simpl in *. subst p.
  destruct c as [c|]; simpl; [|split; [exact H|reflexivity]].
  destruct (isIncognito c); simpl; [case_rejects|];
    first [exact H | split; [solve_nested | reflexivity]].
Qed.

Lemma disconnectBrowser_nested :
  hoare (fun m => nestedIn m /\ context (global m) = None) disconnectBrowser
    (fun _ => nestedIn) (fun _ => nestedIn).
Proof.
  intros [[b c p cfg] w] [H Hc]. unfold_prog. simpl in *. subst c.
  destruct b; simpl; [|exact H].
  case_rejects; [exact H | solve_nested].
Qed.

Lemma initAll_nested : stable nestedIn initAll.
Proof.
  unfold initAll.
  apply stable_bind; [apply connectBrowser_nested | intros []].
  apply stable_bind; [apply createContext_nested | intros []].
  apply openPage_nested.
Qed.

Lemma closeAll_nested : stable nestedIn closeAll.
Proof.
  unfold closeAll, stable.
  eapply hoare_bind; [apply closePage_nested | intros []].
  eapply hoare_bind; [apply closeContext_nested | intros []].
  apply disconnectBrowser_nested.
Qed.

Lemma perform_nested (o : Op) :
  hoare (fun m => nestedIn m /\ inReverseOrder o (global m) = true) (perform o)
    (fun _ => nestedIn) (fun _ => nestedIn).
Proof.
  destruct o; simpl.
  - eapply hoare_consequence; [apply connectBrowser_nested | | | ]; simpl; tauto.
  - eapply hoare_consequence; [apply createContext_nested | | | ]; simpl; tauto.
  - eapply hoare_consequence; [apply openPage_nested | | | ]; simpl; tauto.
  - eapply hoare_consequence; [apply closePage_nested | | | ]; simpl; tauto.
  - eapply hoare_consequence; [apply closeContext_nested | | | ]; simpl; try tauto.
    intros m [H Hp]. split; [exact H|].
    destruct (page (global m)); [discriminate | reflexivity].
  - eapply hoare_consequence; [apply disconnectBrowser_nested | | | ]; simpl; try tauto.
    intros m [H Hc]. split; [exact H|].
    destruct (context (global m)); [discriminate | reflexivity].
  - eapply hoare_consequence; [apply initAll_nested | | | ]; simpl; tauto.
  - eapply hoare_consequence; [apply closeAll_nested | | | ]; simpl; tauto.
  - eapply hoare_consequence; [| | intros a m H; exact H | intros e m H; exact H].
    + unfold resetPage. eapply hoare_bind; [apply closePage_nested | intros []].
      eapply hoare_consequence; [apply openPage_nested | | | ]; simpl; tauto.
    + simpl; tauto.
  - eapply hoare_consequence; [| | intros a m H; exact H | intros e m H; exact H].
    + unfold resetBrowser.
      apply stable_bind; [apply closeAll_nested | intros []; apply initAll_nested].
    + simpl; tauto.
Qed.

(** X7. Handles stay nested.  From the initial state, along every
    sequence of operations that releases in the reverse of creation order
    (as [closeAll], [resetPage] and [resetBrowser] do), whatever the client
    does: a held page is one that was opened on the held context, and a
    held context is one of the held browser. *)
Theorem handles_stay_nested (config : PuppeteerConfig) (w : World)
    (ops : list Op) :
  reverseOrdered ops (start config w) = true ->
  nested (global (run ops (start config w))).
Proof.
  assert (G : forall ops m, nestedIn m -> reverseOrdered ops m = true ->
                            nestedIn (run ops m)).
  { clear ops. induction ops as [|o rest IH]; intros m Hm Hord; simpl in *;
      [exact Hm|].
    apply andb_prop in Hord as [Ho Hrest].
    apply IH; [|exact Hrest].
    pose proof (perform_nested o m (conj Hm Ho)) as H.
    destruct (perform o m) as [[[]|e] m']; exact H. }
  intros Hord. apply G; [|exact Hord]. split; exact I.
Qed.

Lemma handles_stay_nested_witness :
  reverseOrdered [InitAll; ResetPage; ResetBrowser]
    (start incognitoConfig quietWorld) = true /\
  nested (global (run [InitAll; ResetPage; ResetBrowser]
                      (start incognitoConfig quietWorld))).
Proof.
  split; [reflexivity|].
  exact (handles_stay_nested incognitoConfig quietWorld
           [InitAll; ResetPage; ResetBrowser] eq_refl).
Defined.

(** ** Setup and resets at their edges *)

(** X8. The mode is only checked once the browser is connected.  From
    the initial state with a [browserContext] that is neither ["default"]
    nor ["incognito"], and a connection that resolves, [initAll] throws the
    mode error with the browser connected and held: one client call was
    issued, no context and no page exist. *)
Theorem initAll_rejected_mode_keeps_browser (config : PuppeteerConfig)
    (w : World) (received : string) :
  browserContext config = Some received ->
  received <> "default"%string ->
  received <> "incognito"%string ->
  nextRejects w = false ->
  let m' := snd (initAll (start config w)) in
  fst (initAll (start config w)) = Abrupt (Thrown (invalidBrowserContext received)) /\
  global m' =
    withBrowser (Some {| browser_id := fresh w |}) (initialGlobal config) /\
  trace (world m') = trace w ++ [ConnectBrowserFromWorker config].
Proof.
  intros Hmode Hd Hi Hres m'. subst m'.
  apply String.eqb_neq in Hd, Hi.
  unfold_prog. simpl. rewrite Hres. simpl. rewrite Hmode. simpl.
  rewrite Hd, Hi. simpl. repeat split.
Qed.

Lemma initAll_rejected_mode_keeps_browser_witness :
  fst (initAll (start bogusConfig quietWorld)) =
    Abrupt (Thrown (invalidBrowserContext "private")) /\
  browser (global (snd (initAll (start bogusConfig quietWorld)))) =
    Some {| browser_id := 0 |}.
Proof.
  assert (Hd : "private"%string <> "default"%string) by discriminate.
  assert (Hi : "private"%string <> "incognito"%string) by discriminate.
  destruct (initAll_rejected_mode_keeps_browser bogusConfig quietWorld
              "private" eq_refl Hd Hi eq_refl) as (Hr & Hg & _).
  split; [exact Hr|]. rewrite Hg. reflexivity.
Defined.

(** X9. [resetPage] can end without a page.  With a page and a context
    held, when the old page's [close()] resolves and the context's
    [newPage()] then rejects, [resetPage] rejects with the page reference
    cleared: the old page is gone and no new one is held, the browser and
    the context being as before. *)
Theorem resetPage_rejected_newPage_loses_page (m : Machine) (p : Page)
    (c : BrowserContext) :
  page (global m) = Some p ->
  context (global m) = Some c ->
  nextRejects (world m) = false ->
  rejectsFirst (tail (faults (world m))) = true ->
  fst (resetPage m) = Abrupt (Rejected (ContextNewPage c)) /\
  global (snd (resetPage m)) = withPage None (global m).
Proof.
  intros Hp Hc Hres Hrej. unfold_prog. simpl. rewrite Hp. simpl.
  destruct (truthy (exitOnPageError _)); simpl;
    unfold nextRejects in *; simpl; rewrite Hres; simpl; rewrite Hc; simpl;
    rewrite Hrej; simpl; split; reflexivity.
Qed.

Lemma resetPage_rejected_newPage_loses_page_witness :
  let m := {| global := global pageOpen;
              world := {| fresh := 2; faults := [false; true];
                          listeners := ∅; trace := [] |} |} in
  fst (resetPage m) =
    Abrupt (Rejected (ContextNewPage (DefaultContext {| browser_id := 0 |}))) /\
  page (global (snd (resetPage m))) = None.
Proof.
  intros m.
  destruct (resetPage_rejected_newPage_loses_page m
              {| page_id := 1;
                 page_context := DefaultContext {| browser_id := 0 |} |}
              (DefaultContext {| browser_id := 0 |})
              eq_refl eq_refl eq_refl eq_refl) as (Hr & Hg).
  split; [exact Hr|]. rewrite Hg. reflexivity.
Defined.

(** X10. [resetPage] needs a context, not a page.  With a context held
    and a cooperating client, [resetPage] completes holding a new page
    opened on that context, whether a page was held before (it is closed
    first) or not; browser and context are as before. *)
Theorem resetPage_opens_page_on_context (m : Machine) (c : BrowserContext) :
  context (global m) = Some c ->
  cooperative (world m) ->
  fst (resetPage m) = Normal tt /\
  global (snd (resetPage m)) =
    withPage (Some {| page_id := fresh (world m); page_context := c |}) (global m).
Proof.
  intros Hc Hco.
  pose proof (resetPage_calm (fresh (world m)) (global m) c Hc m) as H.
  destruct (resetPage m) as [[[]|e] m']; simpl.
  - destruct H as (Hg & _); [repeat split; auto|]. split; [reflexivity|exact Hg].
  - destruct H. repeat split; auto.
Qed.

Lemma resetPage_opens_page_on_context_witness :
  let m := run [ClosePage] pageOpen in
  let c := DefaultContext {| browser_id := 0 |} in
  (context (global m) = Some c /\ page (global m) = None /\
   cooperative (world m)) /\
  page (global (snd (resetPage m))) = Some {| page_id := 2; page_context := c |}.
Proof.
  intros m c.
  assert (Hco : cooperative (world m)) by (vm_compute; constructor).
  split; [repeat split; exact Hco|].
  destruct (resetPage_opens_page_on_context m c eq_refl Hco) as [_ Hg].
  rewrite Hg. reflexivity.
Defined.

(** X11. [resetBrowser] recovers from any state.  Whatever is held
    before (nothing, a browser alone, handles left over from a failed
    setup or reset), under a mode [createContext] accepts and with a
    cooperating client [resetBrowser] completes with a browser, a context
    and a page held, all three new: none of them is a handle the client
    had given out before. *)
Theorem resetBrowser_recovers (m : Machine) :
  validMode (puppeteerConfig (global m)) ->
  cooperative (world m) ->
  exists b c p,
    fst (resetBrowser m) = Normal tt /\
    global (snd (resetBrowser m)) =
      {| browser := Some b; context := Some c; page := Some p;
         puppeteerConfig := puppeteerConfig (global m) |} /\
    fresh (world m) <= browser_id b /\
    fresh (world m) <= page_id p /\
    (forall c0, contextIssued (fresh (world m)) c0 -> c <> c0).
Proof.
  intros Hmode Hco.
  pose proof (resetBrowser_calm (fresh (world m)) (global m) Hmode m) as H.
  destruct (resetBrowser m) as [[[]|e] m']; simpl.
  - destruct H as (b & c & p & n' & (Hg & _) & Hb & _ & Hc & Hp);
      [repeat split; auto|].
    exists b, c, p. repeat split; auto.
  - destruct H. repeat split; auto.
Qed.

Lemma resetBrowser_recovers_witness :
  let m := snd (initAll (start incognitoConfig
             {| fresh := 0; faults := [false; true];
                listeners := ∅; trace := [] |})) in
  (validMode (puppeteerConfig (global m)) /\ cooperative (world m) /\
   context (global m) = None) /\
  exists b c p,
    fst (resetBrowser m) = Normal tt /\
    global (snd (resetBrowser m)) =
      {| browser := Some b; context := Some c; page := Some p;
         puppeteerConfig := puppeteerConfig (global m) |} /\
    fresh (world m) <= browser_id b /\
    fresh (world m) <= page_id p /\
    (forall c0, contextIssued (fresh (world m)) c0 -> c <> c0).
Proof.
  intros m.
  assert (Hmode : validMode (puppeteerConfig (global m)))
    by (right; right; reflexivity).
  assert (Hco : cooperative (world m)) by (vm_compute; constructor).
  split; [repeat split; assumption|].
  exact (resetBrowser_recovers m Hmode Hco).
Defined.

(** ** The calls of a whole lifecycle *)

Ltac traced_start :=
  let g' := fresh "g'" in let w := fresh "w" in
  let Hg := fresh "Hg" in let Hn := fresh "Hn" in
  let Ht := fresh "Ht" in let Hco := fresh "Hco" in
  intros [g' w] (Hg & Hn & Ht & Hco); simpl in Hg, Hn, Ht, Hco; subst g';
  unfold_prog; unfold traced; simpl.

Ltac solve_traced :=
  unfold traced, defaultBrowserContext; simpl; subst; repeat split;
  solve [ auto | congruence | solve_quiet
        | rewrite <- ?app_assoc, ?app_nil_r; reflexivity ].

Lemma connectBrowser_traced n g t :
  browser g = None ->
  hoare (traced n g t) connectBrowser
    (fun _ => traced (S n) (withBrowser (Some {| browser_id := n |}) g)
                (t ++ [ConnectBrowserFromWorker (puppeteerConfig g)]))
    (fun _ _ => False).
Proof.
  intros Hb. traced_start. rewrite Hb. simpl. resolve_call. solve_traced.
Qed.

Lemma createContext_traced n g t b :
  context g = None ->
  browser g = Some b ->
  validMode (puppeteerConfig g) ->
  hoare (traced n g t) createContext
    (fun _ =>
       if wantsIncognito (puppeteerConfig g)
       then traced (S n) (withContext (Some (IncognitoContext b n)) g)
              (t ++ [CreateIncognitoBrowserContext b])
       else traced n (withContext (Some (DefaultContext b)) g) t)
    (fun _ _ => False).
Proof.
  intros Hc Hb Hmode. traced_start. rewrite Hc. simpl. rewrite Hb. simpl.
  unfold wantsIncognito.
  destruct Hmode as [-> | [-> | ->]]; simpl; try resolve_call; solve_traced.
Qed.

Lemma openPage_traced n g t c :
  page g = None ->
  context g = Some c ->
  let p := {| page_id := n; page_context := c |} in
  hoare (traced n g t) openPage
    (fun _ => traced (S n) (withPage (Some p) g)
                (t ++ [ContextNewPage c] ++
                 (if truthy (exitOnPageError (puppeteerConfig g))
                  then [PageOn p HandlePageError] else [])))
    (fun _ _ => False).
Proof.
  intros Hp Hc p. subst p. traced_start. rewrite Hp. simpl. rewrite Hc. simpl.
  resolve_call. destruct (truthy _); simpl; solve_traced.
Qed.

Lemma closePage_traced n g t p :
  page g = Some p ->
  hoare (traced n g t) closePage
    (fun _ => traced n (withPage None g)
                (t ++
                 (if truthy (exitOnPageError (puppeteerConfig g))
                  then [PageOff p HandlePageError] else []) ++
                 [PageClose p (truthy (runBeforeUnloadOnClose (puppeteerConfig g)))]))
    (fun _ _ => False).
Proof.
  intros Hp. traced_start. rewrite Hp. simpl.
  destruct (truthy (exitOnPageError _)); simpl; resolve_call; solve_traced.
Qed.

Lemma closeContext_traced n g t c :
  context g = Some c ->
  hoare (traced n g t) closeContext
    (fun _ => traced n (withContext None g)
                (t ++ (if isIncognito c then [ContextClose c] else [])))
    (fun _ _ => False).
Proof.
  intros Hc. traced_start. rewrite Hc. simpl.
  destruct (isIncognito c); simpl; try resolve_call; solve_traced.
Qed.

Lemma disconnectBrowser_traced n g t b :
  browser g = Some b ->
  hoare (traced n g t) disconnectBrowser
    (fun _ => traced n (withBrowser None g) (t ++ [BrowserDisconnect b]))
    (fun _ _ => False).
Proof.
  intros Hb. traced_start. rewrite Hb. simpl. resolve_call. solve_traced.
Qed.

Lemma initAll_traced n config t :
  validMode config ->
  let incognito := wantsIncognito config in
  let b := {| browser_id := n |} in
  let c := if incognito then IncognitoContext b (S n) else DefaultContext b in
  let p := {| page_id := if incognito then S (S n) else S n;
              page_context := c |} in
  hoare (traced n (initialGlobal config) t) initAll
    (fun _ =>
       traced (S (page_id p))
         {| browser := Some b; context := Some c; page := Some p;
            puppeteerConfig := config |}
         (t ++ [ConnectBrowserFromWorker config] ++
          (if incognito then [CreateIncognitoBrowserContext b] else []) ++
          [ContextNewPage c] ++
          (if truthy (exitOnPageError config)
           then [PageOn p HandlePageError] else [])))
    (fun _ _ => False).
Proof.
  intros Hmode incognito b c p. subst incognito b c p. unfold initAll.
  eapply hoare_bind; [apply connectBrowser_traced; reflexivity | intros []].
  eapply hoare_bind;
    [apply createContext_traced with (b := {| browser_id := n |});
       [reflexivity | reflexivity | exact Hmode] | intros []].
  intros m Hm. simpl in Hm.
  destruct (wantsIncognito config);
    match type of Hm with
    | traced ?k ?g' ?t' _ =>
        pose proof (openPage_traced k g' t' _ eq_refl eq_refl m Hm) as H
    end;
    (destruct (openPage m) as [[[]|e] m']; [|exact H]);
    revert H; unfold traced, withPage; simpl;
    repeat (rewrite <- app_assoc; simpl); exact id.
Qed.

Lemma closeAll_traced n t b c p config :
  hoare (traced n {| browser := Some b; context := Some c; page := Some p;
                     puppeteerConfig := config |} t) closeAll
    (fun _ =>
       traced n (initialGlobal config)
         (t ++
          (if truthy (exitOnPageError config)
           then [PageOff p HandlePageError] else []) ++
          [PageClose p (truthy (runBeforeUnloadOnClose config))] ++
          (if isIncognito c then [ContextClose c] else []) ++
          [BrowserDisconnect b]))
    (fun _ _ => False).
Proof.
  unfold closeAll.
  eapply hoare_bind; [apply closePage_traced with (p := p); reflexivity | intros []].
  eapply hoare_bind; [apply closeContext_traced with (c := c); reflexivity | intros []].
  intros m Hm.
  match type of Hm with
  | traced ?k ?g' ?t' _ =>
      pose proof (disconnectBrowser_traced k g' t' b eq_refl m Hm) as H
  end.
  destruct (disconnectBrowser m) as [[[]|e] m']; [|exact H].
  revert H. unfold traced, initialGlobal. simpl.
  repeat (rewrite <- app_assoc; simpl). exact id.
Qed.

(** X12. Setup and teardown pair up.  From the initial state, under an
    accepted mode and with a cooperating client, [initAll] followed by
    [closeAll] issues exactly these calls, in this order: connect, create
    the incognito context (incognito mode only), open the page, register
    and unregister [handlePageError] (truthy [exitOnPageError] only), close
    that page, close that context (incognito mode only), disconnect that
    browser.  Every handle acquired is released, last acquired first. *)
Theorem lifecycle_calls_pair_up (config : PuppeteerConfig) (w : World) :
  validMode config ->
  cooperative w ->
  let incognito := wantsIncognito config in
  let b := {| browser_id := fresh w |} in
  let c := if incognito then IncognitoContext b (S (fresh w))
           else DefaultContext b in
  let p := {| page_id := if incognito then S (S (fresh w)) else S (fresh w);
              page_context := c |} in
  trace (world (run [InitAll; CloseAll] (start config w))) =
    trace w ++
    [ConnectBrowserFromWorker config] ++
    (if incognito then [CreateIncognitoBrowserContext b] else []) ++
    [ContextNewPage c] ++
    (if truthy (exitOnPageError config)
     then [PageOn p HandlePageError; PageOff p HandlePageError] else []) ++
    [PageClose p (truthy (runBeforeUnloadOnClose config))] ++
    (if incognito then [ContextClose c] else []) ++
    [BrowserDisconnect b].
Proof.
  intros Hmode Hco incognito b c p. simpl.
  assert (H0 : traced (fresh w) (initialGlobal config) (trace w) (start config w))
    by (repeat split; assumption).
  pose proof (initAll_traced (fresh w) config (trace w) Hmode _ H0) as H1.
  fold incognito b c p in H1.
  destruct (initAll (start config w)) as [[[]|e] m1]; [|destruct H1]. simpl.
  pose proof (closeAll_traced _ _ _ _ _ _ m1 H1) as H2.
  destruct (closeAll m1) as [[[]|e] m2]; [|destruct H2]. simpl.
  destruct H2 as (_ & _ & Ht & _). rewrite Ht.
  assert (Hk : isIncognito c = incognito)
    by (subst c; destruct incognito; reflexivity).
  rewrite Hk. repeat (rewrite <- app_assoc; simpl).
  destruct (truthy (exitOnPageError config)), incognito; reflexivity.
Qed.

Lemma lifecycle_calls_pair_up_witness :
  let b := {| browser_id := 0 |} in
  let c := IncognitoContext b 1 in
  let p := {| page_id := 2; page_context := c |} in
  (validMode incognitoConfig /\ cooperative quietWorld) /\
  trace (world (run [InitAll; CloseAll] (start incognitoConfig quietWorld))) =
    [ConnectBrowserFromWorker incognitoConfig;
     CreateIncognitoBrowserContext b; ContextNewPage c;
     PageOn p HandlePageError; PageOff p HandlePageError;
     PageClose p false; ContextClose c; BrowserDisconnect b].
Proof.
  intros b c p.
  assert (Hmode : validMode incognitoConfig) by (right; right; reflexivity).
  assert (Hco : cooperative quietWorld) by constructor.
  split; [split; assumption|].
  exact (lifecycle_calls_pair_up incognitoConfig quietWorld Hmode Hco).
Defined.

(** * The environment class *)

(** ** [debug] *)

(** X13. [debug] raises the timeout before anything else.  Whatever the
    state and whatever happens next, after [debug] the test timeout is
    345600000 ms, which is the four days its comment announces, and the
    coordinator's state (handles, configuration, client history) is as
    before.  With no page held [debug] then throws [getPage]'s error
    without having paused anything or blocked standard input: the timeout
    stays raised all the same. *)
Theorem debug_raises_timeout_first (s : Environment) :
  let s' := snd (debug s) in
  testTimeout s' = Some 345600000%Z /\
  (345600000 = 4 * 24 * 60 * 60 * 1000)%Z /\
  machine s' = machine s /\
  (page (global (machine s)) = None ->
   fst (debug s) =
     Failed (OfCoordinator (Thrown {| message :=
       "Cannot access page before launching browser." |})) /\
   hostTrace s' = hostTrace s).
Proof.
  unfold_env. unfold getPage, getGlobal, bind, ret, throw. simpl.
  destruct (page (global (machine s))) as [p|]; simpl.
  - destruct (rejectsFirst (hostFaults s)); simpl;
      [|destruct (rejectsFirst (tail (hostFaults s))); simpl];
      repeat split; try reflexivity; discriminate.
  - repeat split; reflexivity.
Qed.

Lemma debug_raises_timeout_first_witness :
  let s := newEnvironment defaultConfig "/repo" quietWorld in
  page (global (machine s)) = None /\
  testTimeout (snd (debug s)) = Some 345600000%Z /\
  fst (debug s) =
    Failed (OfCoordinator (Thrown {| message :=
      "Cannot access page before launching browser." |})).
Proof.
  intros s. split; [reflexivity|].
  destruct (debug_raises_timeout_first s) as (Ht & _ & _ & H).
  split; [exact Ht | exact (proj1 (H eq_refl))].
Defined.

(** X14. [debug] pauses the held page, then blocks.  With a page held,
    [debug] evaluates the breakpoint in that page and only when that
    resolves blocks standard input; it completes exactly when both
    resolve, and a rejected evaluation leaves standard input alone. *)
Theorem debug_pauses_page_then_blocks (s : Environment) (p : Page) :
  page (global (machine s)) = Some p ->
  let s' := snd (debug s) in
  let evaluated := negb (rejectsFirst (hostFaults s)) in
  hostTrace s' =
    hostTrace s ++ [PageEvaluate p] ++ (if evaluated then [BlockStdin] else []) /\
  (fst (debug s) = Done tt <->
   evaluated = true /\ rejectsFirst (tail (hostFaults s)) = false).
Proof.
  intros Hp s' evaluated. subst s' evaluated.
  unfold_env. unfold getPage, getGlobal, bind, ret, throw. simpl.
  rewrite Hp. simpl.
  destruct (rejectsFirst (hostFaults s)); simpl.
  - split; [reflexivity|]. split; [discriminate | intros [H _]; discriminate].
  - destruct (rejectsFirst (tail (hostFaults s))); simpl;
      (split; [now rewrite <- app_assoc|]).
    + split; [discriminate | intros [_ H]; discriminate].
    + split; auto.
Qed.

Lemma debug_pauses_page_then_blocks_witness :
  let s := withMachine pageOpen (newEnvironment defaultConfig "/repo" quietWorld) in
  let p := {| page_id := 1;
              page_context := DefaultContext {| browser_id := 0 |} |} in
  page (global (machine s)) = Some p /\
  hostTrace (snd (debug s)) = [PageEvaluate p; BlockStdin].
Proof.
  intros s p. split; [reflexivity|].
  exact (proj1 (debug_pauses_page_then_blocks s p eq_refl)).
Defined.

(** ** [setup] and [teardown] *)


(** X15. Without a configuration [setup] does nothing.  When
    [readConfig] rejects, [setup] rejects with it: the [global] object and
    the client are untouched, no helper is published, and neither the
    browser is asked for nor the screenshots directory. *)
Theorem setup_stops_at_rejected_config (s : Environment) :
  rejectsFirst (hostFaults s) = true ->
  fst (setup s) = Failed (HostRejected ReadConfig) /\
  machine (snd (setup s)) = machine s /\
  jestPuppeteer (snd (setup s)) = jestPuppeteer s /\
  hostTrace (snd (setup s)) = hostTrace s ++ [ReadConfig].
Proof.
  intros Hrej. unfold_env. simpl. rewrite Hrej. simpl. repeat split.
Qed.

Lemma setup_stops_at_rejected_config_witness :
  let s := {| machine := start defaultConfig quietWorld; testTimeout := None;
              jestPuppeteer := false; configFile := incognitoConfig;
              cwd := "/repo"; hostFaults := [true];
              initAllSettlesFirst := true; hostTrace := [] |} in
  fst (setup s) = Failed (HostRejected ReadConfig) /\
  machine (snd (setup s)) = machine s /\
  jestPuppeteer (snd (setup s)) = false /\
  hostTrace (snd (setup s)) = [ReadConfig].
Proof.
  intros s. exact (setup_stops_at_rejected_config s eq_refl).
Defined.

(** What [setup] does once the configuration is loaded. *)
Lemma setup_after_config (s : Environment) :
  rejectsFirst (hostFaults s) = false ->
  let configured :=
    {| global := withConfig (configFile s) (global (machine s));
       world := world (machine s) |} in
  machine (snd (setup s)) = snd (initAll configured) /\
  jestPuppeteer (snd (setup s)) = true /\
  hostTrace (snd (setup s)) =
    hostTrace s ++ [ReadConfig; Mkdir [cwd s; "screenshots"%string] true] /\
  (rejectsFirst (tail (hostFaults s)) = false ->
   fst (setup s) =
     match fst (initAll configured) with
     | Normal _ => Done tt
     | Abrupt e => Failed (OfCoordinator e)
     end).
Proof.
  intros Hres configured. unfold_env. simpl. rewrite Hres. simpl.
  fold configured.
  destruct (initAll configured) as [[[]|e] m']; simpl;
    destruct (rejectsFirst (tail (hostFaults s))); simpl;
    repeat split; try (now rewrite <- app_assoc); try discriminate.
Qed.



(** X17. [setup] then [teardown].  On an environment that holds no
    handle, with a host and a client whose calls resolve and a loaded
    configuration whose mode [createContext] accepts, [setup] completes
    with the loaded configuration in place, the helpers published and
    browser, context and page held; [teardown] after it completes with
    all three cleared and the configuration still in place. *)
Theorem setup_then_teardown (s : Environment) :
  browser (global (machine s)) = None ->
  context (global (machine s)) = None ->
  page (global (machine s)) = None ->
  hostQuiet s ->
  cooperative (world (machine s)) ->
  validMode (configFile s) ->
  let s1 := snd (setup s) in
  fst (setup s) = Done tt /\
  jestPuppeteer s1 = true /\
  (exists b c p,
     global (machine s1) =
       {| browser := Some b; context := Some c; page := Some p;
          puppeteerConfig := configFile s |}) /\
  fst (teardown s1) = Done tt /\
  global (machine (snd (teardown s1))) = initialGlobal (configFile s).
Proof.
  intros Hb Hc Hp Hq Hco Hmode s1.
  assert (Hr1 : rejectsFirst (hostFaults s) = false)
    by (apply quiet_rejectsFirst, Hq).
  assert (Hr2 : rejectsFirst (tail (hostFaults s)) = false)
    by (apply quiet_rejectsFirst, quiet_tail, Hq).
  destruct (setup_after_config s Hr1) as (Hm & Hj & _ & Hr).
  specialize (Hr Hr2). fold s1 in Hm, Hj.
  set (configured := {| global := withConfig (configFile s) (global (machine s));
                        world := world (machine s) |}) in *.
  assert (Hcalm : calm (fresh (world (machine s)))
                    (initialGlobal (configFile s)) configured).
  { repeat split; auto. unfold configured, withConfig, initialGlobal. simpl.
    rewrite Hb, Hc, Hp. reflexivity. }
  pose proof (initAll_calm _ _ Hmode configured Hcalm) as Hi.
  destruct (initAll configured) as [[[]|e] m1]; [|destruct Hi].
  simpl in Hm, Hr.
  destruct Hi as (b & c & p & n' & (Hg & Hn & Hco1) & _).
  split; [exact Hr|]. split; [exact Hj|].
  split; [exists b, c, p; rewrite Hm; exact Hg|].
  unfold teardown, lift. rewrite Hm.
  pose proof (closeAll_calm n' _ m1 (conj Hg (conj Hn Hco1))) as Hcl.
  destruct (closeAll m1) as [[[]|e] m2]; [|destruct Hcl].
  simpl. split; [reflexivity|]. apply Hcl.
Qed.

Lemma setup_then_teardown_witness :
  let s := newEnvironment incognitoConfig "/repo" quietWorld in
  fst (setup s) = Done tt /\
  jestPuppeteer (snd (setup s)) = true /\
  (exists b c p,
     global (machine (snd (setup s))) =
       {| browser := Some b; context := Some c; page := Some p;
          puppeteerConfig := configFile s |}) /\
  fst (teardown (snd (setup s))) = Done tt /\
  global (machine (snd (teardown (snd (setup s))))) =
    initialGlobal (configFile s).
Proof.
  intros s.
  assert (Hq : hostQuiet s) by constructor.
  assert (Hco : cooperative (world (machine s))) by constructor.
  assert (Hmode : validMode (configFile s)) by (right; right; reflexivity).
  exact (setup_then_teardown s eq_refl eq_refl eq_refl Hq Hco Hmode).
Defined.


